(** * H-Net dynamic chunking: router, downsampler, smoother, upsampler

    A shallow embedding of the notebook [01_hnet.ipynb]: the class
    [SimilarityRouter], the functions [downsample], [smoothing_module]
    and [upsample], and the class [HNet] with its [forward] method.

    Tensors are nested lists (batch, then position, then feature); a
    list nested this way keeps the leading sizes of an empty tensor
    only.  The element type is an interface [Scalar] with two instances:
    the real numbers (exact arithmetic, for the numeric statements) and
    IEEE-754 binary64 floats (for running the code on concrete inputs;
    torch's default is binary32).  Python exceptions are the constructors
    of [exn]; a function that can raise returns a [result].  A loop is a
    fold over its range that passes the loop's state along and stops at
    the first exception; a loop over the batch, whose iterations touch
    one row each, is a map over the rows that stops the same way. *)

From Stdlib Require Import Floats.PrimFloat.
From Stdlib Require Import String.
From Stdlib Require Import Reals Lra.
From Stdlib Require Import List Bool Arith Lia.
Import ListNotations.

Local Open Scope string_scope.
Local Open Scope list_scope.
Local Open Scope nat_scope.

Set Implicit Arguments.

(** ** Exceptions and the result monad *)

(** The exceptions the notebook's code can raise.  [IndexError i d n] is
    torch's "index i is out of bounds for dimension d with size n";
    [IndexError_mask] is the IndexError of a boolean mask whose shape
    differs from the indexed tensor's; [ValueError] is [max()] of an
    empty sequence; [RuntimeError] is a size mismatch of operands. *)
Inductive exn : Type :=
| IndexError (index dim size : nat)
| IndexError_mask
| RuntimeError
| ValueError
| NameError (name : string)
| TypeError.

Inductive result (A : Type) : Type :=
| Ok (a : A)
| Raise (e : exn).

Arguments Ok {A} a.
Arguments Raise {A} e.

Definition bind {A B : Type} (c : result A) (k : A -> result B) : result B :=
  match c with
  | Ok a => k a
  | Raise e => Raise e
  end.

Notation "x <- c ;; k" := (bind c (fun x => k))
  (at level 61, c at next level, right associativity).
Notation "' pat <- c ;; k" := (bind c (fun x => match x with pat => k end))
  (at level 61, pat pattern, c at next level, right associativity).

(** [for t in its: s = body(t, s)], stopping at the first exception. *)
Fixpoint for_each {S : Type} (its : list nat) (body : nat -> S -> result S)
  (s : S) : result S :=
  match its with
  | [] => Ok s
  | t :: rest => s' <- body t s ;; for_each rest body s'
  end.

Fixpoint mapM {A B : Type} (f : A -> result B) (l : list A) : result (list B) :=
  match l with
  | [] => Ok []
  | a :: rest => b <- f a ;; bs <- mapM f rest ;; Ok (b :: bs)
  end.

(** Python's [range(lo, hi)]. *)
Definition py_range (lo hi : nat) : list nat := seq lo (hi - lo).

(** [xs[i]] along dimension [dim]. *)
Definition get {A : Type} (dim : nat) (xs : list A) (i : nat) : result A :=
  match nth_error xs i with
  | Some a => Ok a
  | None => Raise (IndexError i dim (length xs))
  end.

(** [xs[i] = v] for an index in range (every write of the notebook is). *)
Fixpoint list_set {A : Type} (xs : list A) (i : nat) (v : A) : list A :=
  match xs, i with
  | [], _ => []
  | _ :: rest, 0 => v :: rest
  | x :: rest, S i' => x :: list_set rest i' v
  end.

Fixpoint map2 {A B C : Type} (f : A -> B -> C) (xs : list A) (ys : list B)
  : list C :=
  match xs, ys with
  | x :: xs', y :: ys' => f x y :: map2 f xs' ys'
  | _, _ => []
  end.

(** Python's [max] of a sequence of lengths. *)
Definition py_max (ns : list nat) : result nat :=
  match ns with
  | [] => Raise ValueError
  | n :: rest => Ok (fold_left Nat.max rest n)
  end.

(** ** Scalars *)

Class Scalar (T : Type) : Type := {
  s0 : T;
  s1 : T;
  shalf : T;
  seps : T;
  sadd : T -> T -> T;
  ssub : T -> T -> T;
  smul : T -> T -> T;
  sdiv : T -> T -> T;
  ssqrt : T -> T;
  seqb : T -> T -> bool;
  sgeb : T -> T -> bool
}.

(** The few facts about the constants 0, 1 and 0.5 that the control flow
    of the code depends on; they hold for the reals and for floats. *)
Class ScalarLaws (T : Type) {ST : Scalar T} : Prop := {
  seqb_1_1 : seqb s1 s1 = true;
  seqb_0_1 : seqb s0 s1 = false;
  seqb_1_0 : seqb s1 s0 = false;
  seqb_0_0 : seqb s0 s0 = true;
  sgeb_1_half : sgeb s1 shalf = true
}.

Arguments ScalarLaws T {ST}.

Section Chunking.

Context {T : Type} {ST : Scalar T}.

(** A feature vector, a (batch, length) tensor and a
    (batch, length, feature) tensor. *)
Local Abbreviation vec := (list T).
Local Abbreviation tensor2 := (list (list T)).
Local Abbreviation tensor3 := (list (list (list T))).

(** [x.shape[1]] and [x.shape[2]] of a (B, L, D) tensor. *)
Definition shape1 {A : Type} (x : list (list A)) : nat := length (hd [] x).
Definition shape2 (x : tensor3) : nat := length (hd [] (hd [] x)).

(** Rectangular nested lists of the given sizes. *)
Definition has_shape2 {A : Type} (B L : nat) (x : list (list A)) : Prop :=
  length x = B /\ Forall (fun row => length row = L) x.
Definition has_shape3 (B L D : nat) (x : tensor3) : Prop :=
  length x = B /\ Forall (fun row => has_shape2 L D row) x.

Definition sum (xs : list T) : T := fold_right sadd s0 xs.
Definition dot (u v : vec) : T := sum (map2 smul u v).
Definition norm (v : vec) : T := ssqrt (sum (map (fun x => smul x x) v)).
Definition vadd (u v : vec) : vec := map2 sadd u v.
Definition vscale (a : T) (v : vec) : vec := map (smul a) v.

(** ** nn.Linear *)

(** [nn.Linear(in_features, out_features)]: the weight matrix is given
    by its entries, [weight j k] for output [j] and input [k]. *)
Record Linear : Type := {
  in_features : nat;
  out_features : nat;
  weight : nat -> nat -> T;
  bias : option (nat -> T)
}.

(** [x W^T + bias] for one feature vector of the right width. *)
Definition Linear_apply (lin : Linear) (x : vec) : vec :=
  map (fun j =>
         let y := dot (map (weight lin j) (seq 0 (in_features lin))) x in
         match bias lin with
         | Some bj => sadd y (bj j)
         | None => y
         end)
      (seq 0 (out_features lin)).

Definition Linear_vec (lin : Linear) (x : vec) : result vec :=
  if length x =? in_features lin then Ok (Linear_apply lin x)
  else Raise RuntimeError.

Definition Linear_forward (lin : Linear) (x : tensor3) : result tensor3 :=
  mapM (mapM (Linear_vec lin)) x.

(** ** SimilarityRouter *)

Record SimilarityRouter : Type := {
  W_q : Linear;
  W_k : Linear
}.

(** [SimilarityRouter.__init__(dim)]. *)
Definition SimilarityRouter_init (dim : nat) (wq wk : nat -> nat -> T)
  : SimilarityRouter :=
  {| W_q := {| in_features := dim; out_features := dim;
               weight := wq; bias := None |};
     W_k := {| in_features := dim; out_features := dim;
               weight := wk; bias := None |} |}.

(** [torch.cat([k[:1], k[:-1]])] along the position axis. *)
Definition shift_k (k : list vec) : list vec := firstn 1 k ++ removelast k.

(** The cosine similarity of the code, for one position. *)
Definition cos_sim_at (q ks : vec) : T :=
  sdiv (dot q ks) (smul (sadd (norm q) seps) (sadd (norm ks) seps)).

(** [p[:, 0] = 1.0] raises IndexError on sequences of length 0. *)
Definition SimilarityRouter_forward (r : SimilarityRouter) (x_hat : tensor3)
  : result (tensor2 * tensor2) :=
  q <- Linear_forward (W_q r) x_hat ;;
  k <- Linear_forward (W_k r) x_hat ;;
  let k_shifted := map shift_k k in
  let dot_ := map2 (map2 dot) q k_shifted in
  let norm_q := map (map (fun v => sadd (norm v) seps)) q in
  let norm_k := map (map (fun v => sadd (norm v) seps)) k_shifted in
  let cos_sim := map2 (map2 sdiv) dot_ (map2 (map2 smul) norm_q norm_k) in
  let p := map (map (fun c => smul shalf (ssub s1 c))) cos_sim in
  p <- mapM (fun row => _ <- get 1 row 0 ;; Ok (list_set row 0 s1)) p ;;
  let b := map (map (fun x => if sgeb x shalf then s1 else s0)) p in
  Ok (p, b).

(** ** downsample *)

(** [b.bool()]: a number is true when it is not zero. *)
Definition to_bool (x : T) : bool := negb (seqb x s0).

(** [mask.nonzero()]: the positions holding [true], ascending. *)
Fixpoint nonzero_from (pos : nat) (mask : list bool) : list nat :=
  match mask with
  | [] => []
  | m :: rest =>
      if m then pos :: nonzero_from (S pos) rest
      else nonzero_from (S pos) rest
  end.
Definition nonzero (mask : list bool) : list nat := nonzero_from 0 mask.

(** [row[idx]] for a list of indices. *)
Definition gather {A : Type} (dim : nat) (row : list A) (idx : list nat)
  : result (list A) :=
  mapM (get dim row) idx.

(** [F.pad] appends zero rows of the feature width of [x_hat]. *)
Definition downsample (x_hat : tensor3) (b p : tensor2)
  : result (tensor3 * tensor2) :=
  let mask := map (map to_bool) b in
  sel <- mapM (fun i =>
                 mi <- get 0 mask i ;;
                 let idx := nonzero mi in
                 xi <- get 0 x_hat i ;;
                 xs <- gather 1 xi idx ;;
                 pi <- get 0 p i ;;
                 ps <- gather 1 pi idx ;;
                 Ok (xs, ps))
              (py_range 0 (length x_hat)) ;;
  let x_next := map fst sel in
  let P_next := map snd sel in
  max_len <- py_max (map (@length vec) x_next) ;;
  let D := shape2 x_hat in
  let x_next_padded :=
    map (fun x => x ++ repeat (repeat s0 D) (max_len - length x)) x_next in
  let P_next_padded :=
    map (fun P => P ++ repeat s0 (max_len - length P)) P_next in
  Ok (x_next_padded, P_next_padded).

(** ** smoothing_module *)

Definition zeros_like (z : tensor3) : tensor3 :=
  map (map (map (fun _ => s0))) z.

(** The state of the inner loop is row [b] of [bar_z]. *)
Definition smoothing_module (z_hat : tensor3) (P : tensor2) : result tensor3 :=
  let bar_z := zeros_like z_hat in
  mapM (fun b =>
          z_row <- get 0 z_hat b ;;
          z0 <- get 1 z_row 0 ;;
          let bar_row := list_set (nth b bar_z []) 0 z0 in
          for_each (py_range 1 (shape1 z_hat))
            (fun t bar_row =>
               P_row <- get 0 P b ;;
               P_t <- get 1 P_row t ;;
               z_t <- get 1 z_row t ;;
               prev <- get 1 bar_row (t - 1) ;;
               Ok (list_set bar_row t
                     (vadd (vscale P_t z_t) (vscale (ssub s1 P_t) prev))))
            bar_row)
       (py_range 0 (length z_hat)).

(** ** upsample *)

(** Assigning a row of width [w] into a slot of width [D]: the widths
    agree, or the row has one entry and is broadcast. *)
Definition broadcast_to (D : nat) (src : vec) : result vec :=
  if length src =? D then Ok src
  else match src with
       | [x] => Ok (repeat x D)
       | _ => Raise RuntimeError
       end.

Fixpoint same_shape2 {A B : Type} (x : list (list A)) (y : list (list B))
  : bool :=
  match x, y with
  | [], [] => true
  | r :: x', s :: y' => (length r =? length s) && same_shape2 x' y'
  | _, _ => false
  end.

(** [c[mask] = src[mask]] for a mask, a source and a target of one shape. *)
Definition masked_assign (c : tensor2) (mask : list (list bool)) (src : tensor2)
  : result tensor2 :=
  if same_shape2 mask c then
    Ok (map2 (fun mrow cs =>
                map2 (fun (m : bool) (cs1 : T * T) =>
                        if m then snd cs1 else fst cs1)
                     mrow cs)
             mask (map2 (@combine T T) c src))
  else Raise IndexError_mask.

(** The confidence weights [c] that [upsample] computes:
    [c = p.clone(); c[b == 1] = p[b == 1]; c[b == 0] = 1 - p[b == 0]]. *)
Definition confidence (b p : tensor2) : result tensor2 :=
  let c := p in
  c <- masked_assign c (map (map (fun x => seqb x s1)) b) p ;;
  masked_assign c (map (map (fun x => seqb x s0)) b) (map (map (ssub s1)) p).

(** The inner loop of [upsample] for batch element [i]: the state is the
    row of [z] being filled and the running [chunk_idx]. *)
Definition upsample_row (bar_row : list vec) (b : tensor2) (i : nat)
  (original_L D : nat) (z_row : list vec) : result (list vec * nat) :=
  for_each (py_range 0 original_L)
    (fun t st =>
       let '(z_row, chunk_idx) := st in
       src <- get 1 bar_row chunk_idx ;;
       v <- broadcast_to D src ;;
       let z_row := list_set z_row t v in
       b_row <- get 0 b i ;;
       b_t <- get 1 b_row t ;;
       if seqb b_t s1 && (t <? original_L - 1)
       then Ok (z_row, chunk_idx + 1)
       else Ok (z_row, chunk_idx))
    (z_row, 0).

(** The weights [c] are computed after the loops and not used: [z] is
    returned as the loops left it. *)
Definition upsample (bar_z : tensor3) (b p : tensor2) (original_L D : nat)
  : result tensor3 :=
  let z := repeat (repeat (repeat s0 D) original_L) (length bar_z) in
  z <- mapM (fun i =>
               bar_row <- get 0 bar_z i ;;
               st <- upsample_row bar_row b i original_L D (nth i z []) ;;
               Ok (fst st))
            (py_range 0 (length bar_z)) ;;
  _ <- confidence b p ;;
  Ok z.

(** ** HNet *)

Record HNet : Type := {
  num_stages : nat;
  router : SimilarityRouter;
  encoder : Linear;
  main : Linear;
  decoder : Linear;
  linear_skip : Linear
}.

(** The weights and biases of the four [nn.Linear(dim, dim)] layers and
    of the router's two projections. *)
Record HNet_params : Type := {
  router_wq : nat -> nat -> T;
  router_wk : nat -> nat -> T;
  encoder_w : nat -> nat -> T;
  encoder_b : nat -> T;
  main_w : nat -> nat -> T;
  main_b : nat -> T;
  decoder_w : nat -> nat -> T;
  decoder_b : nat -> T;
  skip_w : nat -> nat -> T;
  skip_b : nat -> T
}.

Definition nn_Linear (dim_in dim_out : nat) (w : nat -> nat -> T)
  (bs : nat -> T) : Linear :=
  {| in_features := dim_in; out_features := dim_out;
     weight := w; bias := Some bs |}.

(** [HNet.__init__(dim, num_stages)]. *)
Definition HNet_init (dim n_stages : nat) (w : HNet_params) : HNet :=
  {| num_stages := n_stages;
     router := SimilarityRouter_init dim (router_wq w) (router_wk w);
     encoder := nn_Linear dim dim (encoder_w w) (encoder_b w);
     main := nn_Linear dim dim (main_w w) (main_b w);
     decoder := nn_Linear dim dim (decoder_w w) (decoder_b w);
     linear_skip := nn_Linear dim dim (skip_w w) (skip_b w) |}.

(** The module-level names of the notebook and what they are bound to.
    A call [f(...)] in [forward] resolves [f] here when it runs. *)
Inductive pyobj : Type :=
| Fn_downsample (f : tensor3 -> tensor2 -> tensor2 -> result (tensor3 * tensor2))
| Fn_smooth (f : tensor3 -> tensor2 -> result tensor3)
| Fn_upsample (f : tensor3 -> tensor2 -> tensor2 -> nat -> nat -> result tensor3).

Definition globals : Type := list (string * pyobj).

Fixpoint lookup (G : globals) (name : string) : result pyobj :=
  match G with
  | [] => Raise (NameError name)
  | (n, v) :: rest => if String.eqb n name then Ok v else lookup rest name
  end.

(** The functions the notebook's cells define, in cell order. *)
Definition notebook_globals : globals :=
  [ ("downsample", Fn_downsample downsample);
    ("smoothing_module", Fn_smooth smoothing_module);
    ("upsample", Fn_upsample upsample) ].

(** [z_s += skip]: an in-place sum of two tensors of one shape. *)
Definition tensor3_add (z sk : tensor3) : result tensor3 :=
  if (length z =? length sk) && forallb (fun zs => same_shape2 (fst zs) (snd zs))
                                        (combine z sk)
  then Ok (map2 (map2 vadd) z sk)
  else Raise RuntimeError.

Definition stage_record : Type := (tensor2 * tensor2 * tensor2)%type.

(** The compression loop of [forward]: the state is [(xs, ps)]. *)
Definition compress (G : globals) (m : HNet) (x0 : tensor3)
  : result (list tensor3 * list stage_record) :=
  for_each (py_range 0 (num_stages m))
    (fun _ st =>
       let '(xs, ps) := st in
       x_hat <- Linear_forward (encoder m) (last xs []) ;;
       pb <- SimilarityRouter_forward (router m) x_hat ;;
       let '(p, b) := pb in
       f <- lookup G "downsample" ;;
       match f with
       | Fn_downsample f =>
           xp <- f x_hat b p ;;
           let '(x_next, P_next) := xp in
           Ok (xs ++ [x_next], ps ++ [(p, b, P_next)])
       | _ => Raise TypeError
       end)
    ([x0], []).

(** The decompression loop of [forward]: the state is [zs]. *)
Definition decompress (G : globals) (m : HNet) (xs : list tensor3)
  (ps : list stage_record) (z_hat_S : tensor3) : result (list tensor3) :=
  for_each (rev (py_range 0 (num_stages m)))
    (fun s zs =>
       f <- lookup G "ema_smooth" ;;
       match f with
       | Fn_smooth ema_smooth =>
           rec <- get 0 ps s ;;
           let '(p, b, P_next) := rec in
           bar_z <- ema_smooth (last zs []) P_next ;;
           g <- lookup G "upsample" ;;
           match g with
           | Fn_upsample up =>
               xs_s <- get 0 xs s ;;
               z_s <- up bar_z b p (shape1 xs_s) (shape2 xs_s) ;;
               e <- Linear_forward (encoder m) xs_s ;;
               sk <- Linear_forward (linear_skip m) e ;;
               z_s <- tensor3_add z_s sk ;;
               z_hat_s <- Linear_forward (decoder m) z_s ;;
               Ok (zs ++ [z_hat_s])
           | _ => Raise TypeError
           end
       | _ => Raise TypeError
       end)
    [z_hat_S].

(** [HNet.forward], run with the module-level names [G]. *)
Definition HNet_forward (G : globals) (m : HNet) (x0 : tensor3)
  : result tensor3 :=
  st <- compress G m x0 ;;
  let '(xs, ps) := st in
  z_hat_S <- Linear_forward (main m) (last xs []) ;;
  zs <- decompress G m xs ps z_hat_S ;;
  Ok (last zs []).

End Chunking.

(** ** The two scalar instances *)

Definition Reqb (a b : R) : bool := if Req_dec_T a b then true else false.
Definition Rgeb (a b : R) : bool := if Rle_dec b a then true else false.

#[export] Instance R_Scalar : Scalar R := {|
  s0 := 0%R; s1 := 1%R; shalf := (1 / 2)%R; seps := (1 / 100000000)%R;
  sadd := Rplus; ssub := Rminus; smul := Rmult; sdiv := Rdiv;
  ssqrt := sqrt; seqb := Reqb; sgeb := Rgeb |}.

(** [seps] is the binary64 number nearest to 1e-8. *)
#[export] Instance F_Scalar : Scalar float := {|
  s0 := 0%float; s1 := 1%float; shalf := 0.5%float;
  seps := 0x1.5798ee2308c3ap-27%float;
  sadd := PrimFloat.add; ssub := PrimFloat.sub; smul := PrimFloat.mul;
  sdiv := PrimFloat.div; ssqrt := PrimFloat.sqrt;
  seqb := PrimFloat.eqb; sgeb := fun a b => PrimFloat.leb b a |}.

(** ** Closed forms used in the statements *)

Section ClosedForms.

Context {T : Type} {ST : Scalar T}.

(** The value of [chunk_idx] when the loop of [upsample] reaches
    position [t]: the number of entries equal to 1 strictly before [t]. *)
Definition chunk_index_at (b_row : list T) (t : nat) : nat :=
  length (filter (fun x => seqb x s1) (firstn t b_row)).

(** The chunk assignment as the paper's formula in the notebook and the
    design document give it: the prefix sum of [b] over positions
    [0..t], minus one. *)
Definition spec_idx (b_row : list T) (t : nat) : nat :=
  length (filter (fun x => seqb x s1) (firstn (S t) b_row)) - 1.

(** The raw expansion the loops of [upsample] build when no read
    overruns: position [t] of element [i] holds the row of [bar_z[i]]
    at the index the loop has reached. *)
Definition raw_expansion (bar_z : list (list (list T))) (b : list (list T))
  (original_L : nat)
  : list (list (list T)) :=
  map (fun i =>
         map (fun t => nth (chunk_index_at (nth i b []) t) (nth i bar_z []) [])
             (seq 0 original_L))
      (seq 0 (length bar_z)).

(** The entries of [row] at the positions where [b_row] is true. *)
Definition select {A : Type} (b_row : list T) (row : list A) : list A :=
  map snd (filter (fun bx => to_bool (fst bx)) (combine b_row row)).

(** The number of boundaries of a batch element. *)
Definition chunk_count (b_row : list T) : nat :=
  length (filter to_bool b_row).

(** The batch-wide maximum chunk count that [downsample] pads to. *)
Definition max_count (b : list (list T)) (Bn : nat) : nat :=
  fold_left Nat.max
    (map (fun i => chunk_count (nth i b [])) (seq 1 (Bn - 1)))
    (chunk_count (nth 0 b [])).

(** A way [read] to obtain every batch element's chunk count from what
    [downsample] returns. *)
Definition reports_valid_length
  (read : list (list (list T)) * list (list T) -> list nat) : Prop :=
  forall x_hat b p out,
    downsample x_hat b p = Ok out -> read out = map chunk_count b.

(** The probabilities the router computes for one batch element before
    it forces position 0: [0.5 * (1 - cos_sim)] of [q_t] and the shifted
    [k]. *)
Definition router_p_row (r : SimilarityRouter) (x_row : list (list T))
  : list T :=
  map2 (fun q ks => smul shalf (ssub s1 (cos_sim_at q ks)))
       (map (Linear_apply (W_q r)) x_row)
       (shift_k (map (Linear_apply (W_k r)) x_row)).

(** The cosine similarity as the design document writes it: epsilon is
    added once, to the product of the two norms. *)
Definition spec_cos_sim_at (q ks : list T) : T :=
  sdiv (dot q ks) (sadd (smul (norm q) (norm ks)) seps).

(** The weights of a one-feature network all of whose layers are the
    identity. *)
Definition identity_params : HNet_params :=
  {| router_wq := fun _ _ => s1; router_wk := fun _ _ => s1;
     encoder_w := fun _ _ => s1; encoder_b := fun _ => s0;
     main_w := fun _ _ => s1; main_b := fun _ => s0;
     decoder_w := fun _ _ => s1; decoder_b := fun _ => s0;
     skip_w := fun _ _ => s1; skip_b := fun _ => s0 |}.

(** A row of boundary flags that holds only 0 and 1. *)
Definition binary_row (b_row : list T) : Prop :=
  Forall (fun x => x = s0 \/ x = s1) b_row.

(** [x[i, t]] when both indices are in range. *)
Definition at2 {A : Type} (x : list (list A)) (i t : nat) : option A :=
  match nth_error x i with
  | Some row => nth_error row t
  | None => None
  end.

(** torch's own out-of-range fault, as opposed to a fault the
    chunking code would raise after a check of its own. *)
Definition raw_index_fault (e : exn) : bool :=
  match e with
  | IndexError _ _ _ => true
  | _ => false
  end.

(** The forward value the design document gives the Upsampler: the
    expansion scaled position by position by the confidence weight. *)
Definition confidence_scaled (c : list (list T)) (z : list (list (list T)))
  : list (list (list T)) :=
  map2 (map2 vscale) c z.

(** The indicator a probability determines: 1 if [p >= 0.5] else 0. *)
Definition indicator_of (p_t : T) : T := if sgeb p_t shalf then s1 else s0.

(** The round trip of one stage without the external layers. *)
Definition round_trip (x : list (list (list T))) (b p : list (list T))
  : result (list (list (list T))) :=
  d <- downsample x b p ;;
  bar_z <- smoothing_module (fst d) (snd d) ;;
  upsample bar_z b p (shape1 x) (shape2 x).

End ClosedForms.

(** ** Lists, loops and the result monad *)

Lemma bind_Ok {A B : Type} (c : result A) (k : A -> result B) (b : B) :
  bind c k = Ok b -> exists a, c = Ok a /\ k a = Ok b.
Proof.
  destruct c as [a|e]; simpl; intros H; [eauto | discriminate].
Qed.

Section Basics.

Variables A B C : Type.

Lemma get_Ok (dim : nat) (xs : list A) (i : nat) (a : A) :
  nth_error xs i = Some a -> get dim xs i = Ok a.
Proof. unfold get. now intros ->. Qed.

Lemma get_Raise (dim : nat) (xs : list A) (i : nat) :
  length xs <= i -> get dim xs i = Raise (IndexError i dim (length xs)).
Proof.
  unfold get. intros H. apply nth_error_None in H. now rewrite H.
Qed.

Lemma get_inv (dim : nat) (xs : list A) (i : nat) (a : A) :
  get dim xs i = Ok a -> nth_error xs i = Some a.
Proof.
  unfold get. destruct (nth_error xs i); intros H; now inversion H.
Qed.

Lemma length_list_set (xs : list A) (i : nat) (v : A) :
  length (list_set xs i v) = length xs.
Proof.
  revert i; induction xs as [|x xs IH]; intros [|i]; simpl; auto.
Qed.

Lemma nth_error_list_set_eq (xs : list A) (i : nat) (v : A) :
  i < length xs -> nth_error (list_set xs i v) i = Some v.
Proof.
  revert i; induction xs as [|x xs IH]; intros [|i]; simpl; intros H;
    try lia; auto.
  apply IH; lia.
Qed.

Lemma nth_error_list_set_neq (xs : list A) (i j : nat) (v : A) :
  i <> j -> nth_error (list_set xs i v) j = nth_error xs j.
Proof.
  revert i j; induction xs as [|x xs IH]; intros [|i] [|j]; simpl; intros H;
    try congruence; auto.
Qed.

Lemma Forall_list_set (P : A -> Prop) (xs : list A) (i : nat) (v : A) :
  Forall P xs -> P v -> Forall P (list_set xs i v).
Proof.
  intros HF Hv. revert i; induction HF as [|x xs Hx HF IH]; intros [|i];
    simpl; auto.
Qed.

Lemma length_map2 (f : A -> B -> C) (xs : list A) (ys : list B) :
  length (map2 f xs ys) = Nat.min (length xs) (length ys).
Proof.
  revert ys; induction xs as [|x xs IH]; intros [|y ys]; simpl; auto.
Qed.

Lemma nth_error_map2 (f : A -> B -> C) (xs : list A) (ys : list B) (i : nat) :
  nth_error (map2 f xs ys) i =
  match nth_error xs i, nth_error ys i with
  | Some x, Some y => Some (f x y)
  | _, _ => None
  end.
Proof.
  revert ys i; induction xs as [|x xs IH]; intros [|y ys] [|i]; simpl; auto.
  - destruct (nth_error xs i); reflexivity.
Qed.

Lemma nth_error_eq_ext (xs ys : list A) :
  (forall i, nth_error xs i = nth_error ys i) -> xs = ys.
Proof.
  revert ys; induction xs as [|x xs IH]; intros [|y ys] H.
  - reflexivity.
  - specialize (H 0); discriminate.
  - specialize (H 0); discriminate.
  - f_equal.
    + specialize (H 0); simpl in H; congruence.
    + apply IH; intros i; exact (H (S i)).
Qed.

(** A loop over a list of all-successful iterations is a map. *)
Lemma mapM_Ok (f : A -> result B) (g : A -> B) (l : list A) :
  (forall a, In a l -> f a = Ok (g a)) -> mapM f l = Ok (map g l).
Proof.
  induction l as [|a l IH]; simpl; intros H; [reflexivity|].
  rewrite (H a (or_introl eq_refl)); simpl.
  rewrite IH; auto.
Qed.

(** A loop each of whose iterations returns [g a] or raises [e]. *)
Lemma mapM_cases (f : A -> result B) (g : A -> B) (e : exn)
  (P Q : A -> Prop) (l : list A) :
  (forall a, In a l -> (f a = Ok (g a) /\ P a) \/ (f a = Raise e /\ Q a)) ->
  (mapM f l = Ok (map g l) /\ forall a, In a l -> P a) \/
  (mapM f l = Raise e /\ exists a, In a l /\ Q a).
Proof.
  induction l as [|a l IH]; simpl; intros H.
  - left; split; [reflexivity|]. intros a [].
  - destruct (H a (or_introl eq_refl)) as [[Ha HP]|[Ha HQ]]; rewrite Ha; simpl.
    + destruct IH as [[Hl HPl]|[Hl [a' [Hin HQ]]]]; [now auto| |].
      * left. rewrite Hl; split; [reflexivity|].
        intros a' [->|Hin]; auto.
      * right. rewrite Hl; split; [reflexivity|]. eauto.
    + right; split; [reflexivity|]. eauto.
Qed.

(** A loop all of whose iterations return: what each returns is kept
    at its place. *)
Lemma mapM_total (f : A -> result B) (Q : A -> B -> Prop) (l : list A) :
  (forall a, In a l -> exists b, f a = Ok b /\ Q a b) ->
  exists bs, mapM f l = Ok bs /\ length bs = length l /\
    forall i a, nth_error l i = Some a ->
                exists b, nth_error bs i = Some b /\ Q a b.
Proof.
  induction l as [|a l IH]; simpl; intros H.
  - exists []. repeat split. intros [|i] a Hi; discriminate.
  - destruct (H a (or_introl eq_refl)) as [b [Hb HQ]].
    destruct IH as [bs [Hbs [Hlen Hnth]]]; [now auto|].
    exists (b :: bs). rewrite Hb; simpl. rewrite Hbs; simpl.
    repeat split; [now rewrite Hlen|].
    intros [|i] a' Hi; simpl in *.
    + inversion Hi; subst. eauto.
    + eauto.
Qed.

Lemma mapM_inv (f : A -> result B) (l : list A) (bs : list B) :
  mapM f l = Ok bs ->
  length bs = length l /\
  forall i a, nth_error l i = Some a ->
              exists b, nth_error bs i = Some b /\ f a = Ok b.
Proof.
  revert bs; induction l as [|a l IH]; simpl; intros bs H.
  - inversion H; subst; split; [reflexivity|].
    intros [|i] a0 Hi; discriminate.
  - apply bind_Ok in H as [b [Hb H]].
    destruct (mapM f l) as [bs'|] eqn:E; simpl in H; [|discriminate].
    inversion H; subst; clear H.
    destruct (IH bs' eq_refl) as [Hlen Hnth].
    split; [simpl; congruence|].
    intros [|i] a0 Hi; simpl in *.
    + inversion Hi; subst; eauto.
    + eauto.
Qed.

End Basics.

Lemma py_range_0 (n : nat) : py_range 0 n = seq 0 n.
Proof. unfold py_range. now rewrite Nat.sub_0_r. Qed.

Section Loops.

Variable S : Type.

(** The rule for a counted loop: an invariant indexed by the loop
    variable.  Each iteration either keeps the invariant or raises [e],
    in which case [Bad] holds of that iteration. *)
Lemma for_each_rule (Inv : nat -> S -> Prop) (Bad : nat -> Prop) (e : exn)
  (body : nat -> S -> result S) (n lo : nat) (s : S) :
  Inv lo s ->
  (forall t st, lo <= t < lo + n -> Inv t st ->
     (exists st', body t st = Ok st' /\ Inv (Datatypes.S t) st') \/
     (body t st = Raise e /\ Bad t)) ->
  (exists st', for_each (seq lo n) body s = Ok st' /\ Inv (lo + n) st') \/
  (for_each (seq lo n) body s = Raise e /\ exists t, lo <= t < lo + n /\ Bad t).
Proof.
  revert lo s; induction n as [|n IH]; intros lo s Hinv Hstep; simpl.
  - left; exists s; split; [reflexivity|]. now rewrite Nat.add_0_r.
  - destruct (Hstep lo s ltac:(lia) Hinv) as [[st' [Hb Hi]]|[Hb Hbad]].
    + rewrite Hb; simpl.
      destruct (IH (Datatypes.S lo) st' Hi) as [[st2 [H2 Hi2]]|[H2 [t [Ht Hbt]]]].
      * intros t st Ht; apply Hstep; lia.
      * left; exists st2; split; [exact H2|].
        now replace (lo + Datatypes.S n) with (Datatypes.S lo + n) by lia.
      * right; split; [exact H2|]. exists t; split; [lia|exact Hbt].
    + rewrite Hb; simpl. right; split; [reflexivity|].
      exists lo; split; [lia|exact Hbad].
Qed.

(** The same rule for a loop none of whose iterations raises. *)
Lemma for_each_total (Inv : nat -> S -> Prop)
  (body : nat -> S -> result S) (n lo : nat) (s : S) :
  Inv lo s ->
  (forall t st, lo <= t < lo + n -> Inv t st ->
     exists st', body t st = Ok st' /\ Inv (Datatypes.S t) st') ->
  exists st', for_each (seq lo n) body s = Ok st' /\ Inv (lo + n) st'.
Proof.
  intros Hinv Hstep.
  destruct (@for_each_rule Inv (fun _ => False) ValueError body n lo s Hinv)
    as [H|[_ [t [_ []]]]]; [|exact H].
  intros t st Ht Hi; left; eauto.
Qed.

End Loops.

Section ListFacts.

Variables A B : Type.

Lemma nth_error_map_seq (f : nat -> A) (n lo j : nat) :
  nth_error (map f (seq lo n)) j = if j <? n then Some (f (lo + j)) else None.
Proof.
  revert lo j; induction n as [|n IH]; intros lo [|j]; simpl; auto.
  - now rewrite Nat.add_0_r.
  - rewrite IH. replace (Datatypes.S lo + j) with (lo + Datatypes.S j) by lia.
    reflexivity.
Qed.

Lemma nth_repeat_lt (x d : A) (n i : nat) : i < n -> nth i (repeat x n) d = x.
Proof.
  revert i; induction n as [|n IH]; intros [|i] H; simpl; try lia; auto.
  apply IH; lia.
Qed.

Lemma nth_error_nth_default (l : list A) (i : nat) (d : A) :
  i < length l -> nth_error l i = Some (nth i l d).
Proof.
  revert i; induction l as [|x l IH]; intros [|i] H; simpl in *; try lia; auto.
  apply IH; lia.
Qed.

Lemma combine_map2 (xs : list A) (ys : list B) :
  combine xs ys = map2 pair xs ys.
Proof.
  revert ys; induction xs as [|x xs IH]; intros [|y ys]; simpl; auto.
  now rewrite IH.
Qed.

Lemma firstn_snoc (l : list A) (t : nat) (x : A) :
  nth_error l t = Some x -> firstn (Datatypes.S t) l = firstn t l ++ [x].
Proof.
  revert t; induction l as [|y l IH]; intros [|t] H; simpl in *;
    try discriminate.
  - now inversion H.
  - f_equal. now apply IH.
Qed.

Lemma Forall_nth_error (P : A -> Prop) (l : list A) (i : nat) (x : A) :
  Forall P l -> nth_error l i = Some x -> P x.
Proof.
  intros HF Hn. rewrite Forall_forall in HF. apply HF.
  eapply nth_error_In; eauto.
Qed.

End ListFacts.

(** ** The loop of [upsample] *)

Section UpsampleFacts.

Context {T : Type} {ST : Scalar T}.

Lemma chunk_index_at_S (b_row : list T) (t : nat) (x : T) :
  nth_error b_row t = Some x ->
  chunk_index_at b_row (S t) =
  chunk_index_at b_row t + (if seqb x s1 then 1 else 0).
Proof.
  intros H. unfold chunk_index_at.
  rewrite (firstn_snoc _ _ H), filter_app, length_app; simpl.
  destruct (seqb x s1); reflexivity.
Qed.

Lemma broadcast_to_same (D : nat) (src : list T) :
  length src = D -> broadcast_to D src = Ok src.
Proof. unfold broadcast_to. intros ->. now rewrite Nat.eqb_refl. Qed.

(** One batch element: the loop fills the whole row from [bar_row], or
    its first overrunning read raises torch's IndexError, which names
    the index, the dimension and the size. *)
Lemma upsample_row_cases (bar_row : list (list T)) (b : list (list T)) (i : nat)
  (b_row : list T) (L D L' : nat) (z_row : list (list T)) :
  nth_error b i = Some b_row -> length b_row = L ->
  length bar_row = L' -> Forall (fun v => length v = D) bar_row ->
  length z_row = L ->
  (exists c',
      upsample_row bar_row b i L D z_row =
      Ok (map (fun t => nth (chunk_index_at b_row t) bar_row []) (seq 0 L), c')
      /\ forall t, t < L -> chunk_index_at b_row t < L')
  \/ (upsample_row bar_row b i L D z_row = Raise (IndexError L' 1 L')
      /\ exists t, t < L /\ L' <= chunk_index_at b_row t).
Proof.
  intros Hb Hlb Hlbar Hw Hlz. unfold upsample_row, py_range.
  rewrite Nat.sub_0_r.
  match goal with |- context [for_each _ ?f _] => set (body := f) end.
  pose (Inv := fun (t : nat) (st : list (list T) * nat) =>
    length (fst st) = L /\ snd st <= L' /\
    (t < L -> snd st = chunk_index_at b_row t) /\
    forall j, j < t ->
      nth_error (fst st) j = Some (nth (chunk_index_at b_row j) bar_row [])
      /\ chunk_index_at b_row j < L').
  destruct (@for_each_rule _ Inv (fun t => L' <= chunk_index_at b_row t)
              (IndexError L' 1 L') body L 0 (z_row, 0))
    as [[[z' c'] [Hrun Hinv]]|[Hrun [t [Ht Hbad]]]].
  - unfold Inv; simpl. repeat split; try lia; intros j Hj; lia.
  - intros t [z c] Ht [Hlen [Hc [Hcidx Hdone]]]; simpl in *.
    specialize (Hcidx ltac:(lia)). subst c.
    destruct (Nat.eq_dec (chunk_index_at b_row t) L') as [Heq|Hne].
    + right. split; [|cbv beta; lia]. unfold body.
      rewrite (@get_Raise _ 1 bar_row (chunk_index_at b_row t)) by lia.
      simpl. now rewrite Hlbar, Heq.
    + left. unfold body.
      assert (Hlt : chunk_index_at b_row t < length bar_row) by lia.
      rewrite (get_Ok 1 _ _ (nth_error_nth_default _ [] Hlt)); simpl.
      rewrite broadcast_to_same; simpl.
      2:{ exact (Forall_nth_error _ Hw (nth_error_nth_default _ [] Hlt)). }
      rewrite (get_Ok 0 _ _ Hb); simpl.
      assert (Htb : t < length b_row) by lia.
      rewrite (get_Ok 1 _ _ (nth_error_nth_default _ s0 Htb)); simpl.
      pose proof (chunk_index_at_S _ _ (nth_error_nth_default _ s0 Htb)) as HS.
      set (b_t := nth t b_row s0) in *.
      set (z1 := list_set z t _).
      assert (Hz1 : forall j, j < S t ->
                nth_error z1 j = Some (nth (chunk_index_at b_row j) bar_row [])
                /\ chunk_index_at b_row j < L').
      { intros j Hj. destruct (Nat.eq_dec j t) as [->|Hjt].
        - split; [|lia]. unfold z1. apply nth_error_list_set_eq; lia.
        - unfold z1. rewrite nth_error_list_set_neq by lia.
          apply Hdone; lia. }
      destruct (seqb b_t s1 && (t <? L - 1)) eqn:Hg.
      * eexists; split; [reflexivity|]. unfold Inv; simpl.
        apply andb_prop in Hg as [Hg1 Hg2]. rewrite Hg1 in HS.
        repeat split; try lia; try apply Hz1; auto.
        unfold z1; now rewrite length_list_set.
      * eexists; split; [reflexivity|]. unfold Inv; simpl.
        repeat split; try lia; try apply Hz1; auto.
        -- unfold z1; now rewrite length_list_set.
        -- intros HSt. apply andb_false_iff in Hg as [Hg|Hg].
           ++ rewrite Hg in HS. lia.
           ++ apply Nat.ltb_ge in Hg. lia.
  - left. exists c'. simpl in Hinv.
    destruct Hinv as [Hlen [_ [_ Hdone]]]; simpl in *.
    split.
    + etransitivity; [exact Hrun|]. f_equal. f_equal.
      apply nth_error_eq_ext; intros j. rewrite nth_error_map_seq.
      destruct (j <? L) eqn:Hj.
      * apply Nat.ltb_lt in Hj. now apply Hdone.
      * apply Nat.ltb_ge in Hj. apply nth_error_None. lia.
    + intros t Ht. now apply Hdone.
  - right. split; [exact Hrun|]. exists t. split; [lia|exact Hbad].
Qed.

Lemma same_shape2_refl_shape (A B : Type) (Bn L : nat)
  (x : list (list A)) (y : list (list B)) :
  has_shape2 Bn L x -> has_shape2 Bn L y -> same_shape2 x y = true.
Proof.
  intros [Hx Fx] [Hy Fy]. subst Bn.
  revert y Hy Fy; induction x as [|r x IH]; intros [|s y] Hy Fy;
    simpl in *; try discriminate; auto.
  inversion Fx; inversion Fy; subst.
  replace (length s) with (length r) by congruence.
  rewrite Nat.eqb_refl; simpl. apply IH; auto.
Qed.

Lemma same_shape2_map_l (A B C : Type) (f : A -> C)
  (x : list (list A)) (y : list (list B)) :
  same_shape2 (map (map f) x) y = same_shape2 x y.
Proof.
  revert y; induction x as [|r x IH]; intros [|s y]; simpl; auto.
  now rewrite length_map, IH.
Qed.

Lemma same_shape2_masked (A : Type) (h : bool -> T * T -> T)
  (m : list (list bool)) (x : list (list A)) (c src : list (list T)) :
  same_shape2 m c = true -> same_shape2 x c = true ->
  same_shape2 c src = true ->
  same_shape2 x (map2 (fun mrow cs => map2 h mrow cs) m
                      (map2 (@combine T T) c src)) = true.
Proof.
  revert x c src; induction m as [|mr m IH]; intros [|xr x] [|cr c] [|sr src];
    simpl; try discriminate; auto.
  intros H1 H2 H3.
  apply andb_prop in H1 as [H1 H1'], H2 as [H2 H2'], H3 as [H3 H3'].
  apply Nat.eqb_eq in H1, H2, H3.
  rewrite length_map2, length_combine, IH by assumption.
  rewrite andb_true_r. apply Nat.eqb_eq. lia.
Qed.

(** The weights [c] for tensors [b] and [p] of one shape:
    [c = 1 - p] where [b] is 0, and [c = p] elsewhere. *)
Lemma confidence_at (b p : list (list T)) :
  same_shape2 b p = true ->
  exists c, confidence b p = Ok c /\
    forall i t b_t p_t, at2 b i t = Some b_t -> at2 p i t = Some p_t ->
      at2 c i t = Some (if seqb b_t s0 then ssub s1 p_t else p_t).
Proof.
  intros Hs. unfold confidence, masked_assign.
  rewrite same_shape2_map_l, Hs; simpl.
  rewrite same_shape2_map_l.
  assert (Hp : same_shape2 p p = true).
  { clear. induction p as [|r p IH]; simpl; auto.
    now rewrite Nat.eqb_refl, IH. }
  rewrite same_shape2_masked; auto.
  2:{ now rewrite same_shape2_map_l. }
  eexists; split; [reflexivity|].
  intros i t b_t p_t Hb Hpt. unfold at2 in *.
  rewrite !nth_error_map2, !nth_error_map.
  destruct (nth_error b i) as [br|]; [|discriminate].
  destruct (nth_error p i) as [pr|]; [|discriminate]. simpl.
  rewrite !nth_error_map2, !combine_map2, !nth_error_map2, !nth_error_map.
  rewrite Hb, Hpt; simpl.
  destruct (seqb b_t s0), (seqb b_t s1); reflexivity.
Qed.

Lemma has_shape2_nth (A : Type) (Bn L : nat) (x : list (list A)) (i : nat) :
  has_shape2 Bn L x -> i < Bn ->
  nth_error x i = Some (nth i x []) /\ length (nth i x []) = L.
Proof.
  intros [Hl HF] Hi. subst Bn.
  pose proof (nth_error_nth_default x [] Hi) as Hn.
  split; [exact Hn|]. exact (Forall_nth_error _ HF Hn).
Qed.

Lemma has_shape3_nth (Bn L D : nat) (x : list (list (list T))) (i : nat) :
  has_shape3 Bn L D x -> i < Bn ->
  nth_error x i = Some (nth i x []) /\ has_shape2 L D (nth i x []).
Proof.
  intros [Hl HF] Hi. subst Bn.
  pose proof (nth_error_nth_default x [] Hi) as Hn.
  split; [exact Hn|]. exact (Forall_nth_error _ HF Hn).
Qed.

(** The batch loop of [upsample] on well-shaped tensors: it builds the
    raw expansion, or raises the IndexError of the first overrun. *)
Lemma upsample_cases (bar_z : list (list (list T))) (b p : list (list T))
  (Bn L L' D : nat) :
  has_shape3 Bn L' D bar_z -> has_shape2 Bn L b ->
  (upsample bar_z b p L D =
     (_ <- confidence b p ;; Ok (raw_expansion bar_z b L))
   /\ forall i t, i < Bn -> t < L -> chunk_index_at (nth i b []) t < L')
  \/ (upsample bar_z b p L D = Raise (IndexError L' 1 L')
      /\ exists i t, i < Bn /\ t < L /\ L' <= chunk_index_at (nth i b []) t).
Proof.
  intros Hz Hb. unfold upsample, py_range. rewrite Nat.sub_0_r.
  pose proof (proj1 Hz) as HB.
  match goal with |- context [mapM ?f _] => set (row := f) end.
  destruct (@mapM_cases _ _ row
              (fun i => map (fun t => nth (chunk_index_at (nth i b []) t)
                                          (nth i bar_z []) []) (seq 0 L))
              (IndexError L' 1 L')
              (fun i => forall t, t < L -> chunk_index_at (nth i b []) t < L')
              (fun i => exists t, t < L /\ L' <= chunk_index_at (nth i b []) t)
              (seq 0 (length bar_z)))
    as [[Hrun HP]|[Hrun [i [Hin [t [Ht HQ]]]]]].
  - intros i Hin. apply in_seq in Hin. rewrite HB in Hin.
    destruct (has_shape3_nth Hz (proj2 Hin)) as [Hzi [Hlz Hwz]].
    destruct (has_shape2_nth Hb (proj2 Hin)) as [Hbi Hlb].
    unfold row. rewrite (get_Ok 0 _ _ Hzi); simpl.
    destruct (@upsample_row_cases (nth i bar_z []) b i (nth i b []) L D L'
                (nth i (repeat (repeat (repeat s0 D) L) (length bar_z)) []))
      as [[c' [Hr Hall]]|[Hr Hex]]; auto.
    + rewrite nth_repeat_lt by lia. apply repeat_length.
    + left. now rewrite Hr.
    + right. now rewrite Hr.
  - left. split.
    + rewrite Hrun. reflexivity.
    + intros i t Hi Ht. apply HP; [|exact Ht]. apply in_seq. lia.
  - right. split.
    + now rewrite Hrun.
    + apply in_seq in Hin. exists i, t. repeat split; try lia.
Qed.

End UpsampleFacts.

(** ** The laws hold of both instances *)

#[export] Instance F_ScalarLaws : ScalarLaws float.
Proof. split; reflexivity. Qed.

Lemma Reqb_true (a b : R) : Reqb a b = true <-> a = b.
Proof. unfold Reqb. destruct (Req_dec_T a b); split; congruence. Qed.

Lemma Rgeb_true (a b : R) : Rgeb a b = true <-> (b <= a)%R.
Proof. unfold Rgeb. destruct (Rle_dec b a); split; auto; discriminate. Qed.

#[export] Instance R_ScalarLaws : ScalarLaws R.
Proof.
  split; simpl.
  - now apply Reqb_true.
  - destruct (Reqb 0 1) eqn:E; auto. apply Reqb_true in E. lra.
  - destruct (Reqb 1 0) eqn:E; auto. apply Reqb_true in E. lra.
  - now apply Reqb_true.
  - apply Rgeb_true. lra.
Qed.

(** Two floats that the comparison tells apart are different. *)
Lemma float_neq (a b : float) :
  PrimFloat.eqb a b = false -> PrimFloat.eqb b b = true -> a <> b.
Proof. intros Hab Hbb E. subst a. congruence. Qed.

(** ** Upsampler: chunk assignment *)

Section UpsampleClaims.

Context {T : Type} {ST : Scalar T} {SL : ScalarLaws T}.

Lemma chunk_index_at_ones (L t : nat) :
  t <= L -> chunk_index_at (repeat s1 L) t = t.
Proof.
  unfold chunk_index_at. revert t; induction L as [|L IH]; intros [|t] H;
    simpl; try lia; auto.
  rewrite seqb_1_1; simpl. rewrite IH; lia.
Qed.

(** C1 (the code departs from the claim).  On the single-element input
    with [b = [1,0,1,0]] and two chunks, the formula
    [idx(t) = prefix-sum(b, 0..t) - 1] assigns positions 0,1 to chunk 0
    and positions 2,3 to chunk 1, while the loop of [upsample] reads
    chunk indices 0,1,1,2: it advances [chunk_idx] after a boundary
    instead of before it, so position 3 reads index 2 of a dimension of
    size 2 and the call raises IndexError instead of returning an
    output of length 4. *)
Theorem upsample_scenario_A_raises (z0 z1 : list T) (p : list (list T))
  (D : nat) :
  length z0 = D -> length z1 = D ->
  let b_row := [s1; s0; s1; s0] in
  map (spec_idx b_row) [0; 1; 2; 3] = [0; 0; 1; 1] /\
  map (chunk_index_at b_row) [0; 1; 2; 3] = [0; 1; 1; 2] /\
  upsample [[z0; z1]] [b_row] p 4 D = Raise (IndexError 2 1 2).
Proof.
  intros H0 H1 b_row.
  assert (Hc : map (chunk_index_at b_row) [0; 1; 2; 3] = [0; 1; 1; 2]).
  { unfold chunk_index_at, b_row; simpl.
    now rewrite !seqb_1_1, !seqb_0_1. }
  split; [|split; [exact Hc|]].
  - unfold spec_idx, b_row; simpl. now rewrite !seqb_1_1, !seqb_0_1.
  - destruct (@upsample_cases T ST [[z0; z1]] [b_row] p 1 4 2 D)
      as [[_ Hall]|[Hr _]]; auto.
    + split; [reflexivity|]. repeat constructor; auto.
    + split; [reflexivity|]. repeat constructor.
    + specialize (Hall 0 3 ltac:(lia) ltac:(lia)).
      change (nth 0 [b_row] []) with b_row in Hall.
      assert (H3 : chunk_index_at b_row 3 = 2)
        by (cbn [map] in Hc; congruence).
      lia.
Qed.

(** C2 (amended).  [upsample] makes no bounds check of its own.  On
    well-shaped tensors, whenever the chunk index the loop reads at some
    position of some batch element reaches the compressed length [L'] of
    [bar_z], the call fails with torch's raw IndexError, which reports
    the index [L'], the dimension 1 and the size [L'], and names neither
    stage, batch element nor position. *)
Theorem upsample_overrun_raises_IndexError
  (bar_z : list (list (list T))) (b p : list (list T)) (Bn L L' D : nat) :
  has_shape3 Bn L' D bar_z -> has_shape2 Bn L b ->
  (exists i t, i < Bn /\ t < L /\ L' <= chunk_index_at (nth i b []) t) ->
  upsample bar_z b p L D = Raise (IndexError L' 1 L') /\
  raw_index_fault (IndexError L' 1 L') = true.
Proof.
  intros Hz Hb [i [t [Hi [Ht Hover]]]]. split; [|reflexivity].
  destruct (@upsample_cases T ST bar_z b p Bn L L' D Hz Hb)
    as [[_ Hall]|[Hr _]]; [|exact Hr].
  specialize (Hall i t Hi Ht). lia.
Qed.

End UpsampleClaims.

(** Witness of C1: two chunks of width one, in floats. *)
Lemma upsample_scenario_A_raises_witness :
  upsample [[ [10%float]; [20%float] ]] [[1; 0; 1; 0]%float]
           [[1; 0.25; 0.75; 0.25]%float] 4 1
  = Raise (IndexError 2 1 2).
Proof.
  exact (proj2 (proj2 (@upsample_scenario_A_raises float _ _
                         [10%float] [20%float]
                         [[1; 0.25; 0.75; 0.25]%float] 1 eq_refl eq_refl))).
Defined.

(** Counterexample to C2 as stated.  With one chunk and [b = [1,1]] the
    chunk index of position 1 is 1 under the formula and in the loop
    alike, which is not below the chunk count 1; the call ends in
    torch's raw IndexError, not in a checked fault of the chunking code. *)
Lemma upsample_overrun_is_raw_fault :
  let bar_z := [[ [5%float] ]] in
  let b := [[1; 1]%float] in
  length (nth 0 bar_z []) <= spec_idx (nth 0 b []) 1 /\
  exists e, upsample bar_z b [[1; 1]%float] 2 1 = Raise e /\
            raw_index_fault e = true.
Proof.
  split; [vm_compute; lia|].
  exists (IndexError 1 1 1). split; reflexivity.
Qed.

(** Witness of C2: the same input. *)
Lemma upsample_overrun_raises_IndexError_witness :
  upsample [[ [5%float] ]] [[1; 1]%float] [[1; 1]%float] 2 1
  = Raise (IndexError 1 1 1).
Proof.
  refine (proj1 (@upsample_overrun_raises_IndexError float _
                   [[ [5%float] ]] [[1; 1]%float] [[1; 1]%float] 1 2 1 1
                   _ _ _)).
  - split; [reflexivity|]. repeat constructor.
  - split; [reflexivity|]. repeat constructor.
  - exists 0, 1. repeat split; auto.
Defined.

(** ** Upsampler: the value returned *)

Section UpsampleValue.

Context {T : Type} {ST : Scalar T} {SL : ScalarLaws T}.

Lemma at2_raw_expansion (bar_z : list (list (list T))) (b : list (list T))
  (L i t : nat) :
  i < length bar_z -> t < L ->
  at2 (raw_expansion bar_z b L) i t =
  Some (nth (chunk_index_at (nth i b []) t) (nth i bar_z []) []).
Proof.
  intros Hi Ht. unfold at2, raw_expansion.
  rewrite nth_error_map_seq. apply Nat.ltb_lt in Hi as Hi'. rewrite Hi'.
  rewrite nth_error_map_seq. apply Nat.ltb_lt in Ht as Ht'. now rewrite Ht'.
Qed.

Lemma has_shape3_raw_expansion (bar_z : list (list (list T)))
  (b : list (list T)) (Bn L L' D : nat) :
  has_shape3 Bn L' D bar_z ->
  (forall i t, i < Bn -> t < L -> chunk_index_at (nth i b []) t < L') ->
  has_shape3 Bn L D (raw_expansion bar_z b L).
Proof.
  intros Hz Hall. pose proof (proj1 Hz) as HB. unfold raw_expansion.
  split; [now rewrite length_map, length_seq|].
  apply Forall_forall; intros row Hrow.
  apply in_map_iff in Hrow as [i [<- Hi]]. apply in_seq in Hi.
  split; [now rewrite length_map, length_seq|].
  apply Forall_forall; intros v Hv.
  apply in_map_iff in Hv as [t [<- Ht]]. apply in_seq in Ht.
  destruct (has_shape3_nth Hz (i:=i)) as [_ [Hl HF]]; [lia|].
  assert (Hc : chunk_index_at (nth i b []) t < length (nth i bar_z []))
    by (rewrite Hl; apply Hall; lia).
  exact (Forall_nth_error _ HF (nth_error_nth_default _ [] Hc)).
Qed.

Lemma raw_expansion_all_boundary (bar_z : list (list (list T)))
  (Bn L L' D : nat) :
  has_shape3 Bn L' D bar_z -> L <= L' ->
  raw_expansion bar_z (repeat (repeat s1 L) Bn) L = map (firstn L) bar_z.
Proof.
  intros Hz HL. pose proof (proj1 Hz) as HB. unfold raw_expansion.
  apply nth_error_eq_ext; intros i.
  rewrite nth_error_map_seq, nth_error_map.
  destruct (i <? length bar_z) eqn:Hi.
  - apply Nat.ltb_lt in Hi.
    destruct (has_shape3_nth Hz (i:=i)) as [Hn [Hl _]]; [lia|].
    rewrite Hn; simpl. f_equal.
    rewrite nth_repeat_lt by lia.
    apply nth_error_eq_ext; intros t.
    rewrite nth_error_map_seq, nth_error_firstn.
    destruct (t <? L) eqn:Ht; [|reflexivity].
    apply Nat.ltb_lt in Ht. simpl.
    rewrite chunk_index_at_ones by lia.
    symmetry. apply nth_error_nth_default. lia.
  - apply Nat.ltb_ge in Hi. apply nth_error_None in Hi. now rewrite Hi.
Qed.

(** C4 (amended).  The value [upsample] returns is the raw expansion
    itself: on well-shaped tensors every output position is an unscaled
    copy of one row of [bar_z] of its batch element, the weights [c]
    being computed and then dropped.  On an all-boundary sequence the
    call returns the first [L] latents of every element unchanged, with
    no mixing across positions. *)
Theorem upsample_returns_unscaled_rows
  (bar_z : list (list (list T))) (b p : list (list T)) (Bn L L' D : nat) :
  has_shape3 Bn L' D bar_z -> has_shape2 Bn L b ->
  (forall out, upsample bar_z b p L D = Ok out ->
     has_shape3 Bn L D out /\
     forall i t, i < Bn -> t < L ->
       exists j v, j < L' /\ at2 bar_z i j = Some v /\ at2 out i t = Some v)
  /\ (b = repeat (repeat s1 L) Bn -> has_shape2 Bn L p -> L <= L' ->
      upsample bar_z b p L D = Ok (map (firstn L) bar_z)).
Proof.
  intros Hz Hb. pose proof (proj1 Hz) as HB.
  destruct (@upsample_cases T ST bar_z b p Bn L L' D Hz Hb)
    as [[Hrun Hall]|[Hrun [i [t [Hi [Ht Hover]]]]]].
  - split.
    + intros out Hout. rewrite Hrun in Hout.
      destruct (confidence b p); simpl in Hout; [|discriminate].
      inversion Hout; subst out; clear Hout.
      split; [now apply has_shape3_raw_expansion with (L' := L')|].
      intros i t Hi Ht.
      destruct (has_shape3_nth Hz Hi) as [Hn [Hl _]].
      specialize (Hall i t Hi Ht).
      exists (chunk_index_at (nth i b []) t),
             (nth (chunk_index_at (nth i b []) t) (nth i bar_z []) []).
      split; [exact Hall|]. split.
      * unfold at2. rewrite Hn. apply nth_error_nth_default. lia.
      * apply at2_raw_expansion; lia.
    + intros -> Hp HL. rewrite Hrun.
      destruct (@confidence_at T ST (repeat (repeat s1 L) Bn) p)
        as [c [Hc _]].
      { eapply same_shape2_refl_shape; eauto. }
      rewrite Hc; simpl.
      now rewrite (raw_expansion_all_boundary Hz HL).
  - split.
    + intros out Hout. rewrite Hrun in Hout. discriminate.
    + intros -> _ HL. exfalso.
      rewrite nth_repeat_lt in Hover by lia.
      rewrite chunk_index_at_ones in Hover by lia. lia.
Qed.

End UpsampleValue.

(** Counterexample to C4 as stated.  On the all-boundary input with
    latents [[2],[4]] and probabilities [1, 0.75] the claimed forward
    value at position 1 is [0.75 * 4 = 3]; the code returns [4]. *)
Lemma upsample_does_not_scale :
  let bar_z := [[ [2%float]; [4%float] ]] in
  let b := [[1; 1]%float] in
  let p := [[1; 0.75]%float] in
  (c <- confidence b p ;;
   Ok (confidence_scaled c (raw_expansion bar_z b 2)))
    = Ok [[ [2%float]; [3%float] ]] /\
  upsample bar_z b p 2 1 = Ok [[ [2%float]; [4%float] ]] /\
  upsample bar_z b p 2 1 <>
    (c <- confidence b p ;;
     Ok (confidence_scaled c (raw_expansion bar_z b 2))).
Proof.
  assert (H1 : (c <- confidence [[1; 1]%float] [[1; 0.75]%float] ;;
                Ok (confidence_scaled c
                      (raw_expansion [[ [2%float]; [4%float] ]]
                                     [[1; 1]%float] 2)))
               = Ok [[ [2%float]; [3%float] ]]) by (vm_compute; reflexivity).
  assert (H2 : upsample [[ [2%float]; [4%float] ]] [[1; 1]%float]
                        [[1; 0.75]%float] 2 1
               = Ok [[ [2%float]; [4%float] ]]) by (vm_compute; reflexivity).
  cbv zeta. split; [exact H1|]. split; [exact H2|].
  rewrite H1, H2. intros E.
  assert (E4 : 4%float = 3%float) by congruence.
  revert E4. apply float_neq; reflexivity.
Qed.

(** Witness of C4: two latents of width one and an all-boundary [b]. *)
Lemma upsample_returns_unscaled_rows_witness :
  upsample [[ [2%float]; [4%float] ]] [[1; 1]%float] [[1; 0.75]%float] 2 1
  = Ok [[ [2%float]; [4%float] ]].
Proof.
  refine (proj2 (@upsample_returns_unscaled_rows float _ _
                   [[ [2%float]; [4%float] ]] [[1; 1]%float]
                   [[1; 0.75]%float] 1 2 2 1 _ _) eq_refl _ _).
  - split; [reflexivity|]. repeat constructor.
  - split; [reflexivity|]. repeat constructor.
  - split; [reflexivity|]. repeat constructor.
  - lia.
Defined.

(** ** Upsampler: the confidence weights, over the reals *)

(** C9.  With [p_t] in [0,1] and a binary [b_t] that is
    threshold-consistent with it ([b_t = 1] exactly when [p_t >= 0.5]),
    the weight [c_t] that [upsample] computes lies in [0.5, 1]. *)
Theorem confidence_in_half_one (b p c : list (list R)) (i t : nat)
  (b_t p_t c_t : R) :
  confidence b p = Ok c ->
  at2 b i t = Some b_t -> at2 p i t = Some p_t -> at2 c i t = Some c_t ->
  (0 <= p_t <= 1)%R ->
  b_t = 0%R \/ b_t = 1%R -> (b_t = 1%R <-> (1 / 2 <= p_t)%R) ->
  (1 / 2 <= c_t <= 1)%R.
Proof.
  intros Hc Hb Hp Hct Hrange Hbin Hiff.
  destruct (same_shape2 b p) eqn:Hs.
  - destruct (confidence_at b p Hs) as [c' [Hc' Hat]].
    assert (c' = c) by congruence. subst c'.
    rewrite (Hat i t b_t p_t Hb Hp) in Hct. inversion Hct; subst c_t.
    simpl. destruct Hbin as [-> | ->].
    + assert (H00 : Reqb 0 0 = true) by now apply Reqb_true.
      rewrite H00.
      assert (Hlt : (p_t < 1 / 2)%R).
      { destruct (Rle_dec (1 / 2) p_t) as [Hle|Hn]; [|lra].
        apply Hiff in Hle. lra. }
      lra.
    + destruct (Reqb 1 0) eqn:E; [apply Reqb_true in E; lra|].
      assert (Hge : (1 / 2 <= p_t)%R) by now apply Hiff.
      lra.
  - unfold confidence, masked_assign in Hc.
    rewrite same_shape2_map_l, Hs in Hc. discriminate.
Qed.

(** Witness of C9: one position with [p = 1/4], hence [b = 0] and
    [c = 3/4]. *)
Lemma confidence_in_half_one_witness : (1 / 2 <= 1 - 1 / 4 <= 1)%R.
Proof.
  assert (H00 : Reqb 0 0 = true) by now apply Reqb_true.
  assert (H01 : Reqb 0 1 = false).
  { destruct (Reqb 0 1) eqn:E; auto. apply Reqb_true in E. lra. }
  refine (@confidence_in_half_one [[0%R]] [[(1 / 4)%R]] [[(1 - 1 / 4)%R]]
            0 0 0%R (1 / 4)%R (1 - 1 / 4)%R _ eq_refl eq_refl eq_refl _ _ _).
  - unfold confidence, masked_assign; simpl. rewrite H01; simpl.
    now rewrite H00.
  - lra.
  - now left.
  - split; intros; lra.
Defined.

(** ** Downsampler *)

Section DownsampleFacts.

Context {T : Type} {ST : Scalar T}.

Lemma nth_map_seq (A : Type) (f : nat -> A) (n i : nat) (d : A) :
  i < n -> nth i (map f (seq 0 n)) d = f i.
Proof.
  intros Hi.
  assert (H : nth_error (map f (seq 0 n)) i = Some (f i)).
  { rewrite nth_error_map_seq. apply Nat.ltb_lt in Hi. now rewrite Hi. }
  now apply nth_error_nth.
Qed.

(** Gathering a row at the positions [nonzero] lists keeps the entries
    whose boundary flag is true, in their order. *)
Lemma gather_nonzero (A : Type) (b_row : list T) (pre suf : list A) :
  length b_row = length suf ->
  mapM (get 1 (pre ++ suf)) (nonzero_from (length pre) (map to_bool b_row))
  = Ok (select b_row suf).
Proof.
  revert pre suf; induction b_row as [|x b_row IH]; intros pre [|a suf] H;
    simpl in *; try discriminate; auto.
  specialize (IH (pre ++ [a]) suf ltac:(lia)).
  rewrite <- app_assoc, length_app, Nat.add_1_r in IH. simpl in IH.
  unfold select in *; simpl.
  destruct (to_bool x); simpl.
  - rewrite (get_Ok 1 (pre ++ a :: suf) (length pre) (a := a)); simpl.
    + now rewrite IH.
    + rewrite nth_error_app2 by lia. now rewrite Nat.sub_diag.
  - exact IH.
Qed.

Lemma length_select (A : Type) (b_row : list T) (row : list A) :
  length b_row = length row -> length (select b_row row) = chunk_count b_row.
Proof.
  unfold select, chunk_count.
  revert row; induction b_row as [|x b_row IH]; intros [|a row] H;
    simpl in *; try discriminate; auto.
  destruct (to_bool x); simpl; rewrite IH by lia; reflexivity.
Qed.

Lemma select_Forall (A : Type) (P : A -> Prop) (b_row : list T)
  (row : list A) :
  Forall P row -> Forall P (select b_row row).
Proof.
  unfold select. intros HF. apply Forall_forall. intros a Ha.
  apply in_map_iff in Ha as [[bx a'] [<- Hin]].
  apply filter_In in Hin as [Hin _]. apply in_combine_r in Hin.
  rewrite Forall_forall in HF. now apply HF.
Qed.

Lemma fold_left_max_spec (l : list nat) (n : nat) :
  n <= fold_left Nat.max l n /\
  (forall x, In x l -> x <= fold_left Nat.max l n) /\
  (fold_left Nat.max l n = n \/ In (fold_left Nat.max l n) l).
Proof.
  revert n; induction l as [|a l IH]; intros n; simpl.
  - repeat split; auto. intros x [].
  - destruct (IH (Nat.max n a)) as [H1 [H2 H3]].
    repeat split.
    + lia.
    + intros x [->|Hx]; [lia|auto].
    + destruct H3 as [H3|H3]; [|auto].
      rewrite H3. destruct (Nat.max_spec n a) as [[_ ->]|[_ ->]]; auto.
Qed.

Lemma max_count_spec (b : list (list T)) (Bn : nat) :
  0 < Bn ->
  (forall i, i < Bn -> chunk_count (nth i b []) <= max_count b Bn) /\
  exists i, i < Bn /\ chunk_count (nth i b []) = max_count b Bn.
Proof.
  intros HB. unfold max_count.
  destruct (fold_left_max_spec
              (map (fun i => chunk_count (nth i b [])) (seq 1 (Bn - 1)))
              (chunk_count (nth 0 b []))) as [H1 [H2 H3]].
  split.
  - intros [|i] Hi; [exact H1|].
    apply H2. apply in_map_iff. exists (S i). split; [reflexivity|].
    apply in_seq. lia.
  - destruct H3 as [H3|H3].
    + exists 0. split; [lia|now rewrite H3].
    + apply in_map_iff in H3 as [i [Hi Hin]]. apply in_seq in Hin.
      exists i. split; [lia|exact Hi].
Qed.

Lemma py_max_map_seq (f : nat -> nat) (Bn : nat) :
  0 < Bn ->
  py_max (map f (seq 0 Bn)) =
  Ok (fold_left Nat.max (map f (seq 1 (Bn - 1))) (f 0)).
Proof.
  destruct Bn as [|k]; [lia|]. intros _. simpl.
  now rewrite Nat.sub_0_r.
Qed.

(** The closed form of [downsample] on well-shaped tensors of a
    non-empty batch. *)
Lemma downsample_closed_form (x_hat : list (list (list T)))
  (b p : list (list T)) (Bn L D : nat) :
  has_shape3 Bn L D x_hat -> has_shape2 Bn L b -> has_shape2 Bn L p ->
  0 < Bn ->
  downsample x_hat b p =
  Ok (map (fun i => select (nth i b []) (nth i x_hat []) ++
                    repeat (repeat s0 D)
                           (max_count b Bn - chunk_count (nth i b [])))
          (seq 0 Bn),
      map (fun i => select (nth i b []) (nth i p []) ++
                    repeat s0 (max_count b Bn - chunk_count (nth i b [])))
          (seq 0 Bn)).
Proof.
  intros Hx Hb Hp HB. pose proof (proj1 Hx) as HlB.
  unfold downsample, py_range. rewrite Nat.sub_0_r, HlB.
  rewrite (@mapM_Ok _ _ _
             (fun i => (select (nth i b []) (nth i x_hat []),
                        select (nth i b []) (nth i p [])))).
  2:{ intros i Hi. apply in_seq in Hi.
      destruct (has_shape3_nth Hx (i:=i)) as [Hxi [Hlx _]]; [lia|].
      destruct (has_shape2_nth Hb (i:=i)) as [Hbi Hlb]; [lia|].
      destruct (has_shape2_nth Hp (i:=i)) as [Hpi Hlp]; [lia|].
      rewrite (get_Ok 0 (map (map to_bool) b) i (a := map to_bool (nth i b []))).
      2:{ now rewrite nth_error_map, Hbi. }
      simpl. rewrite (get_Ok 0 _ _ Hxi); simpl.
      unfold gather, nonzero.
      pose proof (gather_nonzero (nth i b []) [] (nth i x_hat [])) as Gx.
      pose proof (gather_nonzero (nth i b []) [] (nth i p [])) as Gp.
      simpl in Gx, Gp. rewrite Gx by lia.
      simpl. rewrite (get_Ok 0 _ _ Hpi); simpl.
      rewrite Gp by lia. reflexivity. }
  cbn [bind].
  assert (Hlen : forall i, In i (seq 0 Bn) ->
            length (select (nth i b []) (nth i x_hat []))
            = chunk_count (nth i b [])).
  { intros i Hi. apply in_seq in Hi.
    destruct (has_shape3_nth Hx (i:=i)) as [_ [Hlx _]]; [lia|].
    destruct (has_shape2_nth Hb (i:=i)) as [_ Hlb]; [lia|].
    apply length_select. lia. }
  assert (Hlenp : forall i, In i (seq 0 Bn) ->
            length (select (nth i b []) (nth i p []))
            = chunk_count (nth i b [])).
  { intros i Hi. apply in_seq in Hi.
    destruct (has_shape2_nth Hp (i:=i)) as [_ Hlp]; [lia|].
    destruct (has_shape2_nth Hb (i:=i)) as [_ Hlb]; [lia|].
    apply length_select. lia. }
  rewrite !map_map. cbn [fst snd].
  rewrite (map_ext_in _ (fun i => chunk_count (nth i b [])) _ Hlen).
  rewrite (py_max_map_seq _ HB). fold (max_count b Bn). cbn [bind].
  assert (HD : max_count b Bn = 0 \/ shape2 x_hat = D).
  { destruct L as [|L'].
    - left. destruct (max_count_spec b HB) as [_ [i [Hi <-]]].
      destruct (has_shape2_nth Hb Hi) as [_ Hlb].
      unfold chunk_count. destruct (nth i b []); [reflexivity|discriminate].
    - right. unfold shape2.
      destruct (has_shape3_nth Hx HB) as [Hx0 [Hl0 HF0]].
      destruct x_hat as [|r x_hat]; [discriminate|]. simpl in *.
      destruct r as [|v r]; [discriminate|]. simpl.
      now inversion HF0. }
  f_equal. f_equal.
  - rewrite ?map_map. apply map_ext_in. intros i Hi. rewrite (Hlen i Hi).
    destruct HD as [H0|HD]; [|now rewrite HD].
    rewrite H0. reflexivity.
  - rewrite ?map_map. apply map_ext_in. intros i Hi.
    now rewrite (Hlenp i Hi).
Qed.

End DownsampleFacts.

Section DownsampleClaims.

Context {T : Type} {ST : Scalar T}.

Lemma downsample_shape (x_hat : list (list (list T))) (b : list (list T))
  (Bn L D : nat) :
  has_shape3 Bn L D x_hat -> has_shape2 Bn L b ->
  (forall i, i < Bn -> chunk_count (nth i b []) <= max_count b Bn) ->
  has_shape3 Bn (max_count b Bn) D
    (map (fun i => select (nth i b []) (nth i x_hat []) ++
                   repeat (repeat s0 D)
                          (max_count b Bn - chunk_count (nth i b [])))
         (seq 0 Bn)).
Proof.
  intros Hx Hb Hle. split; [now rewrite length_map, length_seq|].
  apply Forall_forall. intros row Hrow.
  apply in_map_iff in Hrow as [i [<- Hi]]. apply in_seq in Hi.
  destruct (has_shape3_nth Hx (i:=i)) as [_ [Hlx HFx]]; [lia|].
  destruct (has_shape2_nth Hb (i:=i)) as [_ Hlb]; [lia|].
  split.
  - rewrite length_app, repeat_length, length_select by lia.
    specialize (Hle i ltac:(lia)). lia.
  - apply Forall_app. split.
    + now apply select_Forall.
    + apply Forall_forall. intros v Hv. apply repeat_spec in Hv. subst v.
      apply repeat_length.
Qed.

Lemma downsample_P_shape (b p : list (list T)) (Bn L : nat) :
  has_shape2 Bn L b -> has_shape2 Bn L p ->
  (forall i, i < Bn -> chunk_count (nth i b []) <= max_count b Bn) ->
  has_shape2 Bn (max_count b Bn)
    (map (fun i => select (nth i b []) (nth i p []) ++
                   repeat s0 (max_count b Bn - chunk_count (nth i b [])))
         (seq 0 Bn)).
Proof.
  intros Hb Hp Hle. split; [now rewrite length_map, length_seq|].
  apply Forall_forall. intros row Hrow.
  apply in_map_iff in Hrow as [i [<- Hi]]. apply in_seq in Hi.
  destruct (has_shape2_nth Hp (i:=i)) as [_ Hlp]; [lia|].
  destruct (has_shape2_nth Hb (i:=i)) as [_ Hlb]; [lia|].
  rewrite length_app, repeat_length, length_select by lia.
  specialize (Hle i ltac:(lia)). lia.
Qed.

(** C3 (amended).  [downsample] returns the padded compressed features
    and the padded compressed probabilities and nothing else: no
    ValidLength vector.  On well-shaped tensors of a non-empty batch both
    have the batch-wide maximum chunk count [L'] as their length; element
    [i] holds its [chunk_count] selected entries in their order, then
    zero padding up to [L']. *)
Theorem downsample_returns_padded_pair (x_hat : list (list (list T)))
  (b p : list (list T)) (Bn L D : nat) :
  has_shape3 Bn L D x_hat -> has_shape2 Bn L b -> has_shape2 Bn L p ->
  0 < Bn ->
  exists x_next P_next L',
    downsample x_hat b p = Ok (x_next, P_next) /\
    has_shape3 Bn L' D x_next /\ has_shape2 Bn L' P_next /\
    (forall i, i < Bn -> chunk_count (nth i b []) <= L') /\
    (exists i, i < Bn /\ chunk_count (nth i b []) = L') /\
    forall i, i < Bn ->
      nth i x_next [] =
        select (nth i b []) (nth i x_hat []) ++
        repeat (repeat s0 D) (L' - chunk_count (nth i b [])) /\
      nth i P_next [] =
        select (nth i b []) (nth i p []) ++
        repeat s0 (L' - chunk_count (nth i b [])).
Proof.
  intros Hx Hb Hp HB.
  destruct (max_count_spec b HB) as [Hle Hex].
  eexists _, _, (max_count b Bn).
  split; [exact (downsample_closed_form Hx Hb Hp HB)|].
  split; [now apply downsample_shape with (L := L)|].
  split; [now apply downsample_P_shape with (L := L)|].
  split; [exact Hle|]. split; [exact Hex|].
  intros i Hi. now rewrite !nth_map_seq by exact Hi.
Qed.

End DownsampleClaims.

(** Counterexample to C3 as stated.  Two calls that differ only in the
    boundary flags of element 0, which has one chunk in the first and two
    in the second, return the same pair; so nothing that [downsample]
    returns gives the chunk counts. *)
Lemma downsample_drops_valid_length :
  ~ exists read, @reports_valid_length float _ read.
Proof.
  intros [read Hread].
  pose (x := [[ [0%float]; [0%float] ]; [ [0%float]; [0%float] ]]).
  pose (p := [[0; 0]%float; [0; 0]%float]).
  pose proof (Hread x [[1; 0]%float; [1; 1]%float] p (x, p) eq_refl) as H1.
  pose proof (Hread x [[1; 1]%float; [1; 1]%float] p (x, p) eq_refl) as H2.
  rewrite H1 in H2. vm_compute in H2. discriminate.
Qed.

(** Witness of C3: a batch of two with one and two chunks. *)
Lemma downsample_returns_padded_pair_witness :
  exists x_next P_next L',
    downsample [[ [3%float]; [7%float] ]; [ [1%float]; [2%float] ]]
               [[1; 0]%float; [1; 1]%float]
               [[1; 0.25]%float; [1; 0.75]%float]
    = Ok (x_next, P_next) /\ has_shape3 2 L' 1 x_next.
Proof.
  destruct (@downsample_returns_padded_pair float _
              [[ [3%float]; [7%float] ]; [ [1%float]; [2%float] ]]
              [[1; 0]%float; [1; 1]%float]
              [[1; 0.25]%float; [1; 0.75]%float] 2 2 1)
    as [x_next [P_next [L' [H [Hs _]]]]].
  - split; [reflexivity|]. repeat constructor.
  - split; [reflexivity|]. repeat constructor.
  - split; [reflexivity|]. repeat constructor.
  - lia.
  - exists x_next, P_next, L'. split; assumption.
Defined.

(** ** Smoother *)

Section SmootherClaims.

Context {T : Type} {ST : Scalar T}.

Lemma shape1_has_shape3 (x : list (list (list T))) (Bn L D : nat) :
  has_shape3 Bn L D x -> 0 < Bn -> shape1 x = L.
Proof.
  intros Hx HB. destruct (has_shape3_nth Hx HB) as [H0 [Hl _]].
  unfold shape1. destruct x; [discriminate|]. exact Hl.
Qed.

Lemma nth_zeros_like (z : list (list (list T))) (i : nat)
  (row : list (list T)) :
  nth_error z i = Some row ->
  nth i (zeros_like z) [] = map (map (fun _ => s0)) row.
Proof.
  intros H. unfold zeros_like. apply nth_error_nth.
  now rewrite nth_error_map, H.
Qed.

(** The inner loop of [smoothing_module] for one batch element. *)
Lemma smoothing_row (P : list (list T)) (bi : nat) (z_row : list (list T))
  (P_row : list T) (z0 : list T) (bar0 : list (list T)) (L' D : nat) :
  nth_error P bi = Some P_row -> length P_row = L' -> length z_row = L' ->
  length bar0 = L' -> nth_error bar0 0 = Some z0 ->
  Forall (fun v => length v = D) z_row ->
  Forall (fun v => length v = D) bar0 ->
  exists bar_row,
    for_each (py_range 1 L')
      (fun t bar_row =>
         P_row <- get 0 P bi ;;
         P_t <- get 1 P_row t ;;
         z_t <- get 1 z_row t ;;
         prev <- get 1 bar_row (t - 1) ;;
         Ok (list_set bar_row t
               (vadd (vscale P_t z_t) (vscale (ssub s1 P_t) prev))))
      bar0 = Ok bar_row /\
    length bar_row = L' /\ nth_error bar_row 0 = Some z0 /\
    Forall (fun v => length v = D) bar_row /\
    forall t, 1 <= t < L' ->
      exists z_t P_t prev,
        nth_error z_row t = Some z_t /\ nth_error P_row t = Some P_t /\
        nth_error bar_row (t - 1) = Some prev /\
        nth_error bar_row t =
          Some (vadd (vscale P_t z_t) (vscale (ssub s1 P_t) prev)).
Proof.
  intros HP HlP Hlz Hl0 H0 Hwz Hw0. unfold py_range.
  match goal with |- context [for_each _ ?f _] => set (body := f) end.
  pose (Inv := fun (t : nat) (bar : list (list T)) =>
    length bar = L' /\ nth_error bar 0 = Some z0 /\
    Forall (fun v => length v = D) bar /\
    forall j, 1 <= j < t ->
      exists z_t P_t prev,
        nth_error z_row j = Some z_t /\ nth_error P_row j = Some P_t /\
        nth_error bar (j - 1) = Some prev /\
        nth_error bar j =
          Some (vadd (vscale P_t z_t) (vscale (ssub s1 P_t) prev))).
  destruct L' as [|k].
  { exists bar0. simpl. repeat split; auto. intros t Ht; lia. }
  destruct (@for_each_total _ Inv body (S k - 1) 1 bar0)
    as [bar [Hrun [Hlen [Hb0 [Hw Hrec]]]]].
  - unfold Inv. repeat split; auto. intros j Hj; lia.
  - intros t bar Ht [Hlen [Hb0 [Hw Hrec]]].
    assert (HtP : t < length P_row) by lia.
    assert (Htz : t < length z_row) by lia.
    assert (Htb : t - 1 < length bar) by lia.
    unfold body. rewrite (get_Ok 0 _ _ HP); simpl.
    rewrite (get_Ok 1 _ _ (nth_error_nth_default _ s0 HtP)); simpl.
    rewrite (get_Ok 1 _ _ (nth_error_nth_default _ [] Htz)); simpl.
    rewrite (get_Ok 1 _ _ (nth_error_nth_default _ [] Htb)); simpl.
    eexists; split; [reflexivity|]. unfold Inv.
    rewrite length_list_set. split; [exact Hlen|].
    split; [rewrite nth_error_list_set_neq by lia; exact Hb0|].
    split.
    { apply Forall_list_set; [exact Hw|].
      unfold vadd, vscale. rewrite length_map2, !length_map.
      rewrite (Forall_nth_error _ Hwz (nth_error_nth_default _ [] Htz)).
      rewrite (Forall_nth_error _ Hw (nth_error_nth_default _ [] Htb)).
      lia. }
    intros j Hj. destruct (Nat.eq_dec j t) as [->|Hjt].
    + exists (nth t z_row []), (nth t P_row s0), (nth (t - 1) bar []).
      repeat split; try (apply nth_error_nth_default; lia).
      * rewrite nth_error_list_set_neq by lia.
        apply nth_error_nth_default; lia.
      * apply nth_error_list_set_eq; lia.
    + destruct (Hrec j ltac:(lia)) as [zj [pj [prev [Hz [Hp [Hprev Hcur]]]]]].
      exists zj, pj, prev. repeat split; auto.
      * rewrite nth_error_list_set_neq by lia. exact Hprev.
      * rewrite nth_error_list_set_neq by lia. exact Hcur.
  - exists bar. split; [exact Hrun|]. split; [exact Hlen|].
    split; [exact Hb0|]. split; [exact Hw|]. intros t Ht. apply Hrec. lia.
Qed.

(** What [smoothing_module] returns on well-shaped tensors with at
    least one compressed position: a tensor of the shape of [z_hat] that
    satisfies the recurrence at every index of the padded length. *)
Lemma smoothing_module_rows (z_hat : list (list (list T)))
  (P : list (list T)) (Bn L' D : nat) :
  has_shape3 Bn L' D z_hat -> has_shape2 Bn L' P -> 0 < L' ->
  exists bar_z,
    smoothing_module z_hat P = Ok bar_z /\ has_shape3 Bn L' D bar_z /\
    forall i, i < Bn ->
      at2 bar_z i 0 = at2 z_hat i 0 /\
      forall t, 1 <= t < L' ->
        exists z_t P_t prev,
          at2 z_hat i t = Some z_t /\ at2 P i t = Some P_t /\
          at2 bar_z i (t - 1) = Some prev /\
          at2 bar_z i t =
            Some (vadd (vscale P_t z_t) (vscale (ssub s1 P_t) prev)).
Proof.
  intros Hz HP HL. pose proof (proj1 Hz) as HB.
  unfold smoothing_module. rewrite py_range_0, HB.
  match goal with |- context [mapM ?f _] => set (row := f) end.
  destruct (@mapM_total _ _ row
    (fun i bar_row =>
       has_shape2 L' D bar_row /\
       nth_error bar_row 0 = nth_error (nth i z_hat []) 0 /\
       forall t, 1 <= t < L' ->
         exists z_t P_t prev,
           nth_error (nth i z_hat []) t = Some z_t /\
           nth_error (nth i P []) t = Some P_t /\
           nth_error bar_row (t - 1) = Some prev /\
           nth_error bar_row t =
             Some (vadd (vscale P_t z_t) (vscale (ssub s1 P_t) prev)))
    (seq 0 Bn)) as [bar_z [Hrun [Hlen Hrows]]].
  - intros i Hi. apply in_seq in Hi.
    destruct (has_shape3_nth Hz (i:=i)) as [Hzi [Hlz Hwz]]; [lia|].
    destruct (has_shape2_nth HP (i:=i)) as [HPi HlP]; [lia|].
    unfold row. rewrite (get_Ok 0 _ _ Hzi); simpl.
    assert (H0 : 0 < length (nth i z_hat [])) by lia.
    rewrite (get_Ok 1 _ _ (nth_error_nth_default _ [] H0)); simpl.
    rewrite (shape1_has_shape3 Hz) by lia.
    destruct (@smoothing_row P i (nth i z_hat []) (nth i P [])
                (nth 0 (nth i z_hat []) [])
                (list_set (nth i (zeros_like z_hat) []) 0
                          (nth 0 (nth i z_hat []) [])) L' D)
      as [bar_row [Hr [Hl [Hb0 [Hw Hrec]]]]]; auto.
    + rewrite length_list_set, (nth_zeros_like _ _ Hzi).
      now rewrite length_map.
    + apply nth_error_list_set_eq. rewrite (nth_zeros_like _ _ Hzi).
      rewrite length_map. lia.
    + apply Forall_list_set.
      * rewrite (nth_zeros_like _ _ Hzi). apply Forall_forall.
        intros v Hv. apply in_map_iff in Hv as [v' [<- Hv']].
        rewrite length_map. rewrite Forall_forall in Hwz. now apply Hwz.
      * exact (Forall_nth_error _ Hwz (nth_error_nth_default _ [] H0)).
    + exists bar_row. split; [exact Hr|]. split; [split; assumption|].
      split; [|exact Hrec].
      transitivity (Some (nth 0 (nth i z_hat []) [])); [exact Hb0|].
      exact (eq_sym (nth_error_nth_default _ [] H0)).
  - exists bar_z. split; [exact Hrun|].
    assert (HlB : length bar_z = Bn) by now rewrite Hlen, length_seq.
    assert (Hrow : forall i, i < Bn ->
              exists bar_row, nth_error bar_z i = Some bar_row /\
                has_shape2 L' D bar_row /\
                nth_error bar_row 0 = nth_error (nth i z_hat []) 0 /\
                forall t, 1 <= t < L' ->
                  exists z_t P_t prev,
                    nth_error (nth i z_hat []) t = Some z_t /\
                    nth_error (nth i P []) t = Some P_t /\
                    nth_error bar_row (t - 1) = Some prev /\
                    nth_error bar_row t =
                      Some (vadd (vscale P_t z_t)
                                 (vscale (ssub s1 P_t) prev))).
    { intros i Hi. apply (Hrows i i).
      rewrite nth_error_seq. apply Nat.ltb_lt in Hi. now rewrite Hi. }
    split.
    + split; [exact HlB|]. apply Forall_forall. intros bar_row Hin.
      apply In_nth_error in Hin as [i Hi].
      assert (Hlt : i < Bn)
        by (rewrite <- HlB; apply nth_error_Some; congruence).
      destruct (Hrow i Hlt) as [bar_row' [Hi' [Hs _]]].
      assert (bar_row' = bar_row) by congruence. now subst.
    + intros i Hi. destruct (Hrow i Hi) as [bar_row [Hbi [_ [Hb0 Hrec]]]].
      destruct (has_shape3_nth Hz Hi) as [Hzi _].
      destruct (has_shape2_nth HP Hi) as [HPi _].
      unfold at2. rewrite Hbi, Hzi, HPi. auto.
Qed.

(** C5 (amended).  On well-shaped tensors with at least one compressed
    position, [smoothing_module] returns, and for every batch element it
    computes [bar_z_0 = z_hat_0] and
    [bar_z_t = P_t * z_hat_t + (1 - P_t) * bar_z_(t-1)] for every
    [t = 1 .. L'-1] of the padded length [L']: no ValidLength is
    consulted, so the padding slots take part in the recurrence like any
    other. *)
Theorem smoothing_module_recurrence (z_hat : list (list (list T)))
  (P : list (list T)) (Bn L' D : nat) :
  has_shape3 Bn L' D z_hat -> has_shape2 Bn L' P -> 0 < L' ->
  exists bar_z,
    smoothing_module z_hat P = Ok bar_z /\ has_shape3 Bn L' D bar_z /\
    forall i, i < Bn ->
      at2 bar_z i 0 = at2 z_hat i 0 /\
      forall t, 1 <= t < L' ->
        exists z_t P_t prev,
          at2 z_hat i t = Some z_t /\ at2 P i t = Some P_t /\
          at2 bar_z i (t - 1) = Some prev /\
          at2 bar_z i t =
            Some (vadd (vscale P_t z_t) (vscale (ssub s1 P_t) prev)).
Proof.
  intros Hz HP HL.
  destruct (smoothing_module_rows Hz HP HL) as [bar_z [Hrun [Hs Hrec]]].
  exists bar_z. split; [exact Hrun|]. split; [exact Hs|].
  intros i Hi. destruct (Hrec i Hi) as [H0 Ht]. split; [exact H0|].
  intros t Hrange. exact (Ht t Hrange).
Qed.

End SmootherClaims.

(** Counterexample to C5 as stated.  A batch of two with one and two
    chunks: [downsample] pads element 0 with a zero slot at index 1, at
    its chunk count; [smoothing_module] runs the recurrence over that
    slot too and writes the element's latent [3] into it. *)
Lemma smoothing_module_writes_padding :
  let x := [[ [3%float]; [7%float] ]; [ [1%float]; [2%float] ]] in
  let b := [[1; 0]%float; [1; 1]%float] in
  let p := [[1; 0.25]%float; [1; 0.75]%float] in
  exists x_next P_next bar_z,
    downsample x b p = Ok (x_next, P_next) /\
    smoothing_module x_next P_next = Ok bar_z /\
    chunk_count (nth 0 b []) = 1 /\
    at2 x_next 0 1 = Some [0%float] /\
    at2 bar_z 0 1 = Some [3%float] /\
    [3%float] <> [0%float].
Proof.
  do 3 eexists. repeat split; try (vm_compute; reflexivity).
  intros E. assert (E3 : 3%float = 0%float) by congruence.
  revert E3. apply float_neq; reflexivity.
Qed.

(** Witness of C5: the padded tensors of that batch. *)
Lemma smoothing_module_recurrence_witness :
  exists bar_z,
    smoothing_module [[ [3%float]; [0%float] ]; [ [1%float]; [2%float] ]]
                     [[1; 0]%float; [1; 0.75]%float] = Ok bar_z /\
    length bar_z = 2.
Proof.
  destruct (@smoothing_module_recurrence float _
              [[ [3%float]; [0%float] ]; [ [1%float]; [2%float] ]]
              [[1; 0]%float; [1; 0.75]%float] 2 2 1)
    as [bar_z [H [[Hl _] _]]].
  - split; [reflexivity|]. repeat constructor.
  - split; [reflexivity|]. repeat constructor.
  - lia.
  - exists bar_z. split; assumption.
Defined.

(** ** Router *)

Section RouterFacts.

Context {T : Type} {ST : Scalar T}.

Lemma Linear_forward_Ok (lin : Linear) (x : list (list (list T)))
  (Bn L : nat) :
  has_shape3 Bn L (in_features lin) x ->
  Linear_forward lin x = Ok (map (map (Linear_apply lin)) x) /\
  has_shape3 Bn L (out_features lin) (map (map (Linear_apply lin)) x).
Proof.
  intros [HB HF]. split.
  - unfold Linear_forward. apply mapM_Ok. intros row Hrow.
    rewrite Forall_forall in HF. destruct (HF row Hrow) as [_ HFr].
    apply mapM_Ok. intros v Hv. rewrite Forall_forall in HFr.
    unfold Linear_vec. rewrite (HFr v Hv), Nat.eqb_refl. reflexivity.
  - split; [now rewrite length_map|].
    apply Forall_forall. intros row' Hrow'.
    apply in_map_iff in Hrow' as [row [<- Hrow]].
    rewrite Forall_forall in HF. destruct (HF row Hrow) as [Hl _].
    split; [now rewrite length_map|].
    apply Forall_forall. intros v' Hv'.
    apply in_map_iff in Hv' as [v [<- Hv]].
    unfold Linear_apply. now rewrite length_map, length_seq.
Qed.

Lemma length_shift_k (A : Type) (k : list A) :
  length (firstn 1 k ++ removelast k) = length k.
Proof.
  destruct k as [|a k]; [reflexivity|].
  rewrite length_app, removelast_firstn_len, !length_firstn. simpl. lia.
Qed.

Lemma nth_error_shift_k (k : list (list T)) (t : nat) :
  1 <= t < length k -> nth_error (shift_k k) t = nth_error k (t - 1).
Proof.
  intros Ht. unfold shift_k. destruct k as [|a k]; [simpl in Ht; lia|].
  destruct t as [|t]; [lia|].
  change (firstn 1 (a :: k)) with [a]. cbn [app nth_error].
  rewrite removelast_firstn_len, nth_error_firstn.
  simpl in Ht. simpl length. simpl pred.
  replace (t <? length k) with true by (symmetry; apply Nat.ltb_lt; lia).
  now rewrite Nat.sub_succ, Nat.sub_0_r.
Qed.

(** The tensor-at-a-time computation of the router is, row by row and
    position by position, [0.5 * (1 - cos_sim_at q ks)]. *)
Lemma router_row_fusion (q ks : list (list T)) :
  map (fun c => smul shalf (ssub s1 c))
      (map2 sdiv (map2 dot q ks)
            (map2 smul (map (fun v => sadd (norm v) seps) q)
                       (map (fun v => sadd (norm v) seps) ks)))
  = map2 (fun a k => smul shalf (ssub s1 (cos_sim_at a k))) q ks.
Proof.
  revert ks; induction q as [|a q IH]; intros [|k ks]; simpl; auto.
  now rewrite IH.
Qed.

Lemma router_batch_fusion (r : SimilarityRouter) (x : list (list (list T))) :
  let q := map (map (Linear_apply (W_q r))) x in
  let k := map (map (Linear_apply (W_k r))) x in
  let k_shifted := map shift_k k in
  map (map (fun c => smul shalf (ssub s1 c)))
      (map2 (map2 sdiv) (map2 (map2 dot) q k_shifted)
            (map2 (map2 smul)
                  (map (map (fun v => sadd (norm v) seps)) q)
                  (map (map (fun v => sadd (norm v) seps)) k_shifted)))
  = map (router_p_row r) x.
Proof.
  induction x as [|row x IH]; simpl in *; auto.
  rewrite IH. f_equal. apply router_row_fusion.
Qed.

Lemma length_router_p_row (r : SimilarityRouter) (x_row : list (list T)) :
  length (router_p_row r x_row) = length x_row.
Proof.
  unfold router_p_row, shift_k.
  rewrite length_map2, length_shift_k, !length_map. lia.
Qed.

(** The closed form of the router on a well-shaped tensor with at least
    one position. *)
Lemma router_closed_form (dim : nat) (wq wk : nat -> nat -> T)
  (x_hat : list (list (list T))) (Bn L : nat) :
  has_shape3 Bn L dim x_hat -> 0 < L ->
  let r := SimilarityRouter_init dim wq wk in
  let p := map (fun x_row => list_set (router_p_row r x_row) 0 s1) x_hat in
  SimilarityRouter_forward r x_hat = Ok (p, map (map indicator_of) p).
Proof.
  intros Hx HL r p. unfold SimilarityRouter_forward.
  destruct (@Linear_forward_Ok (W_q r) x_hat Bn L Hx) as [Hq _].
  destruct (@Linear_forward_Ok (W_k r) x_hat Bn L Hx) as [Hk _].
  rewrite Hq, Hk. cbn [bind].
  rewrite (router_batch_fusion r x_hat).
  rewrite (@mapM_Ok _ _ _ (fun row => list_set row 0 s1)).
  - cbn [bind]. now rewrite map_map.
  - intros row Hrow. apply in_map_iff in Hrow as [x_row [<- Hin]].
    destruct Hx as [_ HF]. rewrite Forall_forall in HF.
    destruct (HF x_row Hin) as [Hl _].
    assert (H0 : 0 < length (router_p_row r x_row))
      by (rewrite length_router_p_row; lia).
    now rewrite (get_Ok 1 _ _ (nth_error_nth_default _ s0 H0)).
Qed.

End RouterFacts.

Section RouterClaims.

Context {T : Type} {ST : Scalar T} {SL : ScalarLaws T}.

Lemma s0_neq_s1 : s0 <> s1.
Proof.
  intros E. pose proof seqb_0_1 as H. rewrite E, seqb_1_1 in H. discriminate.
Qed.

Lemma indicator_of_iff (p_t : T) :
  indicator_of p_t = s1 <-> sgeb p_t shalf = true.
Proof.
  unfold indicator_of. destruct (sgeb p_t shalf); split; auto.
  - intros E. exfalso. now apply s0_neq_s1.
  - discriminate.
Qed.

(** On a well-shaped tensor with at least one position the router
    returns two (batch, length) tensors, and every row of [b] starts
    with 1. *)
Lemma router_returns (dim : nat) (wq wk : nat -> nat -> T)
  (x_hat : list (list (list T))) (Bn L : nat) :
  has_shape3 Bn L dim x_hat -> 0 < L ->
  exists p b,
    SimilarityRouter_forward (SimilarityRouter_init dim wq wk) x_hat
    = Ok (p, b) /\ has_shape2 Bn L p /\ has_shape2 Bn L b /\
    forall i, i < Bn -> nth_error (nth i b []) 0 = Some s1.
Proof.
  intros Hx HL. pose proof (router_closed_form wq wk Hx HL) as H.
  cbv zeta in H. eexists _, _. split; [exact H|].
  set (r := SimilarityRouter_init dim wq wk) in *.
  assert (Hp : has_shape2 Bn L
            (map (fun x_row => list_set (router_p_row r x_row) 0 s1) x_hat)).
  { destruct Hx as [HB HF]. split; [now rewrite length_map|].
    apply Forall_forall. intros row Hrow.
    apply in_map_iff in Hrow as [x_row [<- Hin]].
    rewrite Forall_forall in HF. destruct (HF x_row Hin) as [Hl _].
    now rewrite length_list_set, length_router_p_row. }
  split; [exact Hp|].
  assert (Hb : has_shape2 Bn L
            (map (map indicator_of)
               (map (fun x_row => list_set (router_p_row r x_row) 0 s1)
                    x_hat))).
  { destruct Hp as [HB HF]. split; [now rewrite length_map|].
    apply Forall_forall. intros row Hrow.
    apply in_map_iff in Hrow as [p_row [<- Hin]].
    rewrite Forall_forall in HF. rewrite length_map. now apply HF. }
  split; [exact Hb|].
  intros i Hi. destruct (has_shape3_nth Hx Hi) as [Hxi [Hlx _]].
  match goal with |- nth_error (nth i ?bb []) 0 = _ =>
    assert (Hrow : nth i bb [] =
                   map indicator_of
                     (list_set (router_p_row r (nth i x_hat [])) 0 s1))
  end.
  { apply nth_error_nth. now rewrite !nth_error_map, Hxi. }
  rewrite Hrow.
  rewrite nth_error_map, nth_error_list_set_eq
    by (rewrite length_router_p_row; lia).
  simpl. unfold indicator_of. now rewrite sgeb_1_half.
Qed.

(** C7.  Whenever the router returns, for every input and every weight
    setting, position 0 of every batch element has [p = 1.0] and
    [b = 1], and at every position [b = 1] exactly when [p >= 0.5].
    It returns on every well-shaped input with at least one position. *)
Theorem router_forces_first_boundary (r : SimilarityRouter)
  (dim : nat) (wq wk : nat -> nat -> T)
  (x_hat : list (list (list T))) (Bn L : nat) :
  (forall p b, SimilarityRouter_forward r x_hat = Ok (p, b) ->
     (forall i p_row, nth_error p i = Some p_row ->
                      nth_error p_row 0 = Some s1) /\
     (forall i b_row, nth_error b i = Some b_row ->
                      nth_error b_row 0 = Some s1) /\
     (forall i t p_t, at2 p i t = Some p_t ->
        exists b_t, at2 b i t = Some b_t /\
                    (b_t = s1 <-> sgeb p_t shalf = true)))
  /\ (has_shape3 Bn L dim x_hat -> 0 < L ->
      exists p b,
        SimilarityRouter_forward (SimilarityRouter_init dim wq wk) x_hat
        = Ok (p, b) /\ has_shape2 Bn L p /\ has_shape2 Bn L b).
Proof.
  split.
  - intros p b H. unfold SimilarityRouter_forward in H.
    apply bind_Ok in H as [q [_ H]]. apply bind_Ok in H as [k [_ H]].
    apply bind_Ok in H as [p' [Hp H]]. inversion H; subst p' b; clear H.
    apply mapM_inv in Hp as [Hlen Hrows].
    assert (Hp0 : forall i p_row, nth_error p i = Some p_row ->
                                  nth_error p_row 0 = Some s1).
    { intros i p_row Hi.
      assert (Hlt : i < length p) by (apply nth_error_Some; congruence).
      rewrite Hlen in Hlt.
      destruct (Hrows i _ (nth_error_nth_default _ [] Hlt))
        as [row [Hrow Hset]].
      assert (row = p_row) by congruence. subst row.
      apply bind_Ok in Hset as [x0 [Hget Hset]]. inversion Hset.
      apply get_inv in Hget. apply nth_error_list_set_eq.
      apply nth_error_Some. congruence. }
    split; [exact Hp0|]. split.
    + intros i b_row Hi. rewrite nth_error_map in Hi.
      destruct (nth_error p i) as [p_row|] eqn:Hpi; [|discriminate].
      inversion Hi; subst b_row. rewrite nth_error_map.
      rewrite (Hp0 i p_row Hpi). simpl. now rewrite sgeb_1_half.
    + intros i t p_t Hat. unfold at2 in *. rewrite nth_error_map.
      destruct (nth_error p i) as [p_row|]; [|discriminate]. simpl.
      rewrite nth_error_map, Hat. simpl.
      exists (if sgeb p_t shalf then s1 else s0). split; [reflexivity|].
      apply indicator_of_iff.
  - intros Hx HL.
    destruct (router_returns wq wk Hx HL) as [p [b [H [Hp [Hb _]]]]].
    exists p, b. auto.
Qed.

End RouterClaims.

(** Witness of C7: one element of three positions, identity weights. *)
Lemma router_forces_first_boundary_witness :
  exists p b,
    SimilarityRouter_forward
      (SimilarityRouter_init 1 (fun _ _ => 1%float) (fun _ _ => 1%float))
      [[ [1%float]; [1%float]; [(-1)%float] ]] = Ok (p, b) /\
    has_shape2 1 3 p /\ has_shape2 1 3 b.
Proof.
  refine (proj2 (@router_forces_first_boundary float _ _
                   (SimilarityRouter_init 1 (fun _ _ => 1%float)
                                          (fun _ _ => 1%float))
                   1 (fun _ _ => 1%float) (fun _ _ => 1%float)
                   [[ [1%float]; [1%float]; [(-1)%float] ]] 1 3) _ _).
  - split; [reflexivity|]. repeat constructor.
  - lia.
Defined.

(** ** Router: the cosine similarity, over the reals *)

Section RouterReal.

Local Open Scope R_scope.

Lemma sumsq_nonneg (v : list R) : 0 <= sum (map (fun x => smul x x) v).
Proof.
  induction v as [|x v IH]; unfold sum in *; simpl in *; [lra|]. nra.
Qed.

(** The quadratic form behind the Cauchy-Schwarz inequality. *)
Lemma dot_quadratic_form (u v : list R) (a b : R) :
  0 <= a * a * sum (map (fun x => smul x x) u)
       - 2 * a * b * dot u v
       + b * b * sum (map (fun x => smul x x) v).
Proof.
  revert v; induction u as [|x u IH]; intros [|y v].
  - unfold dot, sum. simpl. lra.
  - pose proof (sumsq_nonneg (y :: v)) as H.
    unfold dot, sum in *. simpl in *. nra.
  - pose proof (sumsq_nonneg (x :: u)) as H.
    unfold dot, sum in *. simpl in *. nra.
  - specialize (IH v). unfold dot, sum in *. simpl in *.
    pose proof (Rle_0_sqr (a * x - b * y)) as Hsq. unfold Rsqr in Hsq.
    match goal with |- 0 <= ?e =>
      match type of IH with 0 <= ?f =>
        replace e with ((a * x - b * y) * (a * x - b * y) + f) by ring
      end
    end.
    lra.
Qed.

Lemma dot_cauchy_schwarz (u v : list R) :
  dot u v * dot u v <=
  sum (map (fun x => smul x x) u) * sum (map (fun x => smul x x) v).
Proof.
  pose proof (sumsq_nonneg u) as HU. pose proof (sumsq_nonneg v) as HV.
  set (U := sum (map (fun x => smul x x) u)) in *.
  set (V := sum (map (fun x => smul x x) v)) in *.
  set (S := dot u v).
  destruct (Req_dec_T U 0) as [HU0|HU0].
  - assert (HS : S = 0).
    { destruct (Req_dec_T S 0) as [|HS]; [assumption|exfalso].
      pose proof (dot_quadratic_form u v ((V + 1) / (2 * S)) 1) as H.
      fold U V S in H. rewrite HU0 in H.
      replace (2 * ((V + 1) / (2 * S)) * 1 * S) with (V + 1) in H
        by (field; exact HS).
      lra. }
    rewrite HS, HU0. lra.
  - pose proof (dot_quadratic_form u v S U) as H. fold U V S in H.
    assert (HUpos : 0 < U) by lra.
    assert (H' : 0 <= U * (U * V - S * S)) by nra.
    nra.
Qed.

Lemma dot_abs_le_norms (u v : list R) : Rabs (dot u v) <= norm u * norm v.
Proof.
  unfold norm. simpl ssqrt.
  rewrite <- sqrt_mult by apply sumsq_nonneg.
  rewrite <- sqrt_Rsqr_abs. apply sqrt_le_1.
  - apply Rle_0_sqr.
  - apply Rmult_le_pos; apply sumsq_nonneg.
  - unfold Rsqr. apply dot_cauchy_schwarz.
Qed.

Lemma norm_nonneg (u : list R) : 0 <= norm u.
Proof. unfold norm. simpl ssqrt. apply sqrt_pos. Qed.

(** The denominator of the code is positive and bounds the dot product. *)
Lemma cos_sim_at_bounded (q ks : list R) :
  0 < (norm q + seps) * (norm ks + seps) /\
  -1 <= cos_sim_at q ks <= 1.
Proof.
  pose proof (norm_nonneg q) as Hq. pose proof (norm_nonneg ks) as Hk.
  pose proof (dot_abs_le_norms q ks) as Habs.
  assert (He : 0 < seps) by (simpl; lra).
  set (nq := norm q) in *. set (nk := norm ks) in *. set (d := dot q ks) in *.
  assert (Hden : 0 < (nq + seps) * (nk + seps)) by nra.
  split; [exact Hden|].
  change (cos_sim_at q ks) with (d / ((nq + seps) * (nk + seps))).
  assert (Hd : - ((nq + seps) * (nk + seps)) <= d <= (nq + seps) * (nk + seps)).
  { pose proof (Rle_abs d) as H1. pose proof (Rle_abs (- d)) as H2.
    rewrite Rabs_Ropp in H2. split; nra. }
  unfold Rdiv.
  pose proof (Rinv_0_lt_compat _ Hden) as Hinv.
  set (D := (nq + seps) * (nk + seps)) in *.
  assert (HDi : D * / D = 1) by (apply Rinv_r; lra).
  assert (Hlo : 0 <= (d + D) * / D) by (apply Rmult_le_pos; lra).
  assert (Hhi : 0 <= (D - d) * / D) by (apply Rmult_le_pos; lra).
  split; lra.
Qed.

(** C8 (amended).  For every position [t >= 1] the router computes
    [p_t = 0.5 * (1 - cos_t)] with
    [cos_t = dot(q_t, k_(t-1)) / ((|q_t| + eps) * (|k_(t-1)| + eps))]:
    the constant [eps = 1e-8] is added to each norm before the two are
    multiplied.  The denominator is positive, so the division is defined
    also when a projection has zero norm, and in exact arithmetic
    [cos_t] lies in [-1, 1] and [p_t] in [0, 1]. *)
Theorem router_cosine_probability (dim : nat) (wq wk : nat -> nat -> R)
  (x_hat : list (list (list R))) (Bn L : nat) :
  has_shape3 Bn L dim x_hat -> (0 < L)%nat ->
  let r := SimilarityRouter_init dim wq wk in
  exists p b,
    SimilarityRouter_forward r x_hat = Ok (p, b) /\
    forall i t x_t x_prev,
      (1 <= t)%nat ->
      at2 x_hat i t = Some x_t -> at2 x_hat i (t - 1) = Some x_prev ->
      let q_t := Linear_apply (W_q r) x_t in
      let k_prev := Linear_apply (W_k r) x_prev in
      let cos_t :=
        dot q_t k_prev / ((norm q_t + 1 / 100000000) *
                          (norm k_prev + 1 / 100000000)) in
      at2 p i t = Some (1 / 2 * (1 - cos_t)) /\
      0 < (norm q_t + 1 / 100000000) * (norm k_prev + 1 / 100000000) /\
      -1 <= cos_t <= 1 /\
      0 <= 1 / 2 * (1 - cos_t) <= 1.
Proof.
  intros Hx HL r. pose proof (router_closed_form wq wk Hx HL) as H.
  cbv zeta in H. fold r in H. eexists _, _. split; [exact H|].
  intros i t x_t x_prev Ht Hxt Hxp q_t k_prev cos_t.
  destruct (cos_sim_at_bounded q_t k_prev) as [Hden Hcos].
  change (cos_sim_at q_t k_prev) with cos_t in Hcos.
  change (@seps R R_Scalar) with (1 / 100000000) in Hden.
  split; [|split; [exact Hden|split; [exact Hcos|lra]]].
  unfold at2 in *. rewrite nth_error_map.
  destruct (nth_error x_hat i) as [x_row|]; [|discriminate]. simpl.
  assert (Hlt : (t < length x_row)%nat)
    by (apply nth_error_Some; congruence).
  rewrite nth_error_list_set_neq by lia.
  unfold router_p_row. rewrite nth_error_map2, nth_error_map, Hxt.
  rewrite nth_error_shift_k by (rewrite length_map; lia).
  rewrite nth_error_map, Hxp. reflexivity.
Qed.

End RouterReal.

Section RouterRealExamples.

Local Open Scope R_scope.

Lemma norm_single (x : R) : 0 <= x -> @norm R _ [x] = x.
Proof.
  intros Hx. unfold norm, sum. simpl.
  replace (x * x + 0) with (x * x) by ring. now apply sqrt_square.
Qed.

Lemma Linear_apply_identity_1 (x : R) :
  Linear_apply (W_q (SimilarityRouter_init 1 (fun _ _ => 1) (fun _ _ => 1)))
               [x] = [x].
Proof.
  unfold Linear_apply, dot, sum. simpl. f_equal. ring.
Qed.

(** Counterexample to C8 as stated.  One element, two positions, both
    with the single feature [1e-8], identity projections: the code
    divides the dot product [1e-16] by [(1e-8 + eps) * (1e-8 + eps)]
    and obtains [cos = 1/4], [p_1 = 3/8]; with [eps] added to the
    product of the norms the value would be
    [0.5 * (1 - 1e-16 / (1e-16 + 1e-8))], which is not [3/8]. *)
Lemma router_epsilon_on_each_norm :
  let r := SimilarityRouter_init 1 (fun _ _ => 1) (fun _ _ => 1) in
  let e := 1 / 100000000 in
  let x_hat := [[ [e]; [e] ]] in
  exists p b,
    SimilarityRouter_forward r x_hat = Ok (p, b) /\
    at2 p 0 1 = Some (3 / 8) /\
    smul shalf (ssub s1 (spec_cos_sim_at (Linear_apply (W_q r) [e])
                                         (Linear_apply (W_k r) [e])))
    <> 3 / 8.
Proof.
  intros r e x_hat.
  assert (He : 0 <= e) by (unfold e; lra).
  assert (Hx : has_shape3 1 2 1 x_hat).
  { split; [reflexivity|]. repeat constructor. }
  pose proof (router_closed_form (fun _ _ => 1) (fun _ _ => 1) Hx
                ltac:(lia)) as H.
  cbv zeta in H. fold r in H.
  assert (Hq : Linear_apply (W_q r) [e] = [e])
    by apply Linear_apply_identity_1.
  assert (Hk : Linear_apply (W_k r) [e] = [e])
    by apply Linear_apply_identity_1.
  eexists _, _. split; [exact H|]. split.
  - unfold at2, x_hat. cbn [map nth_error list_set].
    unfold router_p_row, shift_k.
    cbn [map firstn removelast app map2 nth_error list_set].
    rewrite Hq, Hk. f_equal. unfold cos_sim_at.
    rewrite (norm_single He).
    change (@dot R R_Scalar [e] [e]) with (e * e + 0).
    change (@seps R R_Scalar) with e.
    simpl. unfold e. field.
  - rewrite Hq, Hk. unfold spec_cos_sim_at.
    rewrite (norm_single He).
    change (@dot R R_Scalar [e] [e]) with (e * e + 0).
    change (@seps R R_Scalar) with e.
    simpl. unfold e. intros E.
    assert (E' : 1 * / 100000000 * (1 * / 100000000) + 0 =
                 / 4 * (1 * / 100000000 * (1 * / 100000000)
                        + 1 * / 100000000)).
    { set (num := 1 * / 100000000 * (1 * / 100000000) + 0) in *.
      set (den := 1 * / 100000000 * (1 * / 100000000) + 1 * / 100000000)
        in *.
      assert (Hden : 0 < den) by (unfold den; lra).
      assert (Hcos : num * / den = / 4) by lra.
      replace num with (num * / den * den) by (field; lra).
      rewrite Hcos. reflexivity. }
    lra.
Qed.

(** Witness of C8: one element, two positions, identity projections. *)
Lemma router_cosine_probability_witness :
  exists p b,
    SimilarityRouter_forward
      (SimilarityRouter_init 1 (fun _ _ => 1) (fun _ _ => 1))
      [[ [1]; [1] ]] = Ok (p, b).
Proof.
  destruct (@router_cosine_probability 1 (fun _ _ => 1) (fun _ _ => 1)
              [[ [1]; [1] ]] 1 2) as [p [b [H _]]].
  - split; [reflexivity|]. repeat constructor.
  - lia.
  - exists p, b. exact H.
Defined.

End RouterRealExamples.

(** ** HNet.forward *)

Section ForwardClaims.

Context {T : Type} {ST : Scalar T} {SL : ScalarLaws T}.

Lemma chunk_count_first_boundary (b_row : list T) :
  nth_error b_row 0 = Some s1 -> 1 <= chunk_count b_row.
Proof.
  destruct b_row as [|x b_row]; [discriminate|].
  intros H. inversion H; subst x. unfold chunk_count, to_bool. simpl.
  rewrite seqb_1_0. simpl. lia.
Qed.

Lemma lookup_downsample :
  lookup (@notebook_globals T ST) "downsample" = Ok (Fn_downsample downsample).
Proof. reflexivity. Qed.

(** No cell of the notebook defines [ema_smooth]. *)
Lemma lookup_ema_smooth :
  lookup (@notebook_globals T ST) "ema_smooth" = Raise (NameError "ema_smooth").
Proof. reflexivity. Qed.

(** One stage of compression keeps a non-empty batch of non-empty
    sequences of width [dim]. *)
Lemma compress_stage (dim n_stages : nat) (w : HNet_params)
  (x : list (list (list T))) (Bn L : nat) :
  has_shape3 Bn L dim x -> 0 < Bn -> 0 < L ->
  let m := HNet_init dim n_stages w in
  exists x_hat p b x_next P_next L',
    Linear_forward (encoder m) x = Ok x_hat /\
    SimilarityRouter_forward (router m) x_hat = Ok (p, b) /\
    downsample x_hat b p = Ok (x_next, P_next) /\
    0 < L' /\ has_shape3 Bn L' dim x_next.
Proof.
  intros Hx HB HL m.
  destruct (@Linear_forward_Ok T ST (encoder m) x Bn L Hx) as [He Hxh].
  change (out_features (encoder m)) with dim in Hxh.
  destruct (router_returns (router_wq w) (router_wk w) Hxh HL)
    as [p [b [Hr [Hp [Hb Hb0]]]]].
  destruct (max_count_spec b HB) as [Hle _].
  exists (map (map (Linear_apply (encoder m))) x), p, b.
  eexists _, _, (max_count b Bn).
  split; [exact He|]. split; [exact Hr|].
  split; [exact (downsample_closed_form Hxh Hb Hp HB)|].
  split.
  - specialize (Hle 0 HB).
    pose proof (chunk_count_first_boundary _ (Hb0 0 HB)). lia.
  - now apply downsample_shape with (L := L).
Qed.

(** The compression loop returns on a non-empty batch of non-empty
    sequences of width [dim], however many stages there are. *)
Lemma compress_returns (dim n_stages : nat) (w : HNet_params)
  (x0 : list (list (list T))) (Bn L : nat) :
  has_shape3 Bn L dim x0 -> 0 < Bn -> 0 < L ->
  exists xs ps L',
    compress notebook_globals (HNet_init dim n_stages w) x0 = Ok (xs, ps) /\
    0 < L' /\ has_shape3 Bn L' dim (last xs []).
Proof.
  intros Hx HB HL. unfold compress. rewrite py_range_0.
  match goal with |- context [for_each _ ?f _] => set (body := f) end.
  pose (Inv := fun (_ : nat)
                   (st : list (list (list (list T))) *
                         list (list (list T) * list (list T) * list (list T)))
               => exists L', 0 < L' /\ has_shape3 Bn L' dim (last (fst st) [])).
  destruct (@for_each_total _ Inv body n_stages 0 ([x0], []))
    as [[xs ps] [Hrun [L' [HL' Hs]]]].
  - exists L. split; [exact HL|exact Hx].
  - intros t [xs ps] _ [L1 [HL1 Hs]]. simpl in Hs.
    destruct (compress_stage n_stages w Hs HB HL1)
      as [x_hat [p [b [x_next [P_next [L2 [He [Hr [Hd [HL2 Hn]]]]]]]]]].
    unfold body. change (num_stages (HNet_init dim n_stages w)) with n_stages.
    rewrite He. cbn [bind]. rewrite Hr. cbn [bind].
    rewrite lookup_downsample. cbn [bind]. rewrite Hd. cbn [bind].
    eexists; split; [reflexivity|].
    exists L2. split; [exact HL2|]. cbn [fst]. now rewrite last_last.
  - exists xs, ps, L'. split; [exact Hrun|]. split; [exact HL'|exact Hs].
Qed.

(** C10 (amended).  For every non-empty input (batch size and length at
    least 1, feature width [dim]) and every [num_stages >= 1], the
    compression loop and the main network run, and the first iteration
    of the decompression loop calls [ema_smooth], a name no cell of the
    notebook defines: [forward] fails with the unresolved-name fault
    before the smoothing recurrence, the upsampler or the skip
    connection run. *)
Theorem forward_raises_NameError (dim n_stages : nat) (w : HNet_params)
  (x0 : list (list (list T))) (Bn L : nat) :
  1 <= n_stages -> 0 < Bn -> 0 < L -> has_shape3 Bn L dim x0 ->
  HNet_forward notebook_globals (HNet_init dim n_stages w) x0
  = Raise (NameError "ema_smooth").
Proof.
  intros Hn HB HL Hx. unfold HNet_forward.
  destruct (compress_returns n_stages w Hx HB HL)
    as [xs [ps [L' [Hc [HL' Hs]]]]].
  rewrite Hc. cbn [bind].
  destruct (@Linear_forward_Ok T ST (main (HNet_init dim n_stages w))
              (last xs []) Bn L' Hs) as [Hm _].
  rewrite Hm. cbn [bind].
  unfold decompress. rewrite py_range_0.
  change (num_stages (HNet_init dim n_stages w)) with n_stages.
  destruct n_stages as [|k]; [lia|].
  rewrite seq_S, rev_app_distr. cbn [rev app for_each].
  now rewrite lookup_ema_smooth.
Qed.

End ForwardClaims.

(** Counterexample to C10 as stated.  On an empty batch the compression
    loop itself fails: [downsample] takes [max()] of an empty sequence
    and raises ValueError, so [forward] never reaches the call of
    [ema_smooth]. *)
Lemma forward_empty_batch_raises_ValueError :
  HNet_forward notebook_globals
    (HNet_init 1 1 (@identity_params float _)) []
  = Raise ValueError /\
  Raise ValueError <> @Raise (list (list (list float)))
                             (NameError "ema_smooth").
Proof. split; [reflexivity|discriminate]. Qed.

(** Witness of C10: one element of two positions, one stage. *)
Lemma forward_raises_NameError_witness :
  HNet_forward notebook_globals
    (HNet_init 1 1 (@identity_params float _)) [[ [1%float]; [1%float] ]]
  = Raise (NameError "ema_smooth").
Proof.
  apply (@forward_raises_NameError float _ _ 1 1 identity_params
           [[ [1%float]; [1%float] ]] 1 2); try lia.
  split; [reflexivity|]. repeat constructor.
Defined.

(** C6 (the code departs from the claim).  The round trip does not
    return a tensor of the input's shape for every boundary pattern: on
    a single element of length 4 with [b = [1,0,1,0]] the upsampler
    overruns the two compressed chunks and raises IndexError.  The
    end-to-end [forward] returns nothing either: as the notebook is
    written it stops at the undefined name [ema_smooth], and with that
    name bound to [smoothing_module] it raises the upsampler's
    IndexError, the fault the notebook's recorded run shows. *)
Theorem round_trip_raises_IndexError :
  round_trip [[ [1%float]; [2%float]; [3%float]; [4%float] ]]
             [[1; 0; 1; 0]%float] [[1; 0.25; 0.75; 0.25]%float]
  = Raise (IndexError 2 1 2) /\
  HNet_forward notebook_globals
    (HNet_init 1 1 (@identity_params float _)) [[ [1%float]; [1%float] ]]
  = Raise (NameError "ema_smooth") /\
  HNet_forward (("ema_smooth", Fn_smooth smoothing_module)
                  :: notebook_globals)
    (HNet_init 1 1 (@identity_params float _)) [[ [1%float]; [1%float] ]]
  = Raise (IndexError 1 1 1).
Proof. repeat split; vm_compute; reflexivity. Qed.

(** ** Further properties of the code *)

Section RoundTrip.

Context {T : Type} {ST : Scalar T} {SL : ScalarLaws T}.

Lemma filter_binary_row (l : list T) :
  binary_row l -> filter (fun x => seqb x s1) l = filter to_bool l.
Proof.
  induction 1 as [|x l Hx _ IH]; simpl; [reflexivity|].
  unfold to_bool at 1.
  destruct Hx as [-> | ->].
  - rewrite seqb_0_1, seqb_0_0. exact IH.
  - rewrite seqb_1_1, seqb_1_0. simpl. now rewrite IH.
Qed.

Lemma filter_firstn_le (A : Type) (f : A -> bool) (l : list A) (t : nat) :
  length (filter f (firstn t l)) <= length (filter f l).
Proof.
  revert t; induction l as [|x l IH]; intros [|t]; simpl; try lia.
  specialize (IH t). destruct (f x); simpl; lia.
Qed.

Lemma chunk_index_at_le (b_row : list T) (t u : nat) :
  t <= u -> chunk_index_at b_row t <= chunk_index_at b_row u.
Proof.
  intros H. unfold chunk_index_at.
  replace (firstn t b_row) with (firstn t (firstn u b_row)).
  - apply filter_firstn_le.
  - rewrite firstn_firstn. f_equal. lia.
Qed.

(** In a binary row the loop of [upsample] reaches its last position
    with the row's chunk count, less one if that position is a boundary. *)
Lemma chunk_index_at_last (b_row : list T) (L : nat) (x : T) :
  binary_row b_row -> length b_row = L -> 0 < L ->
  nth_error b_row (L - 1) = Some x ->
  chunk_index_at b_row (L - 1) + (if seqb x s1 then 1 else 0)
  = chunk_count b_row.
Proof.
  intros Hbin Hl HL Hx.
  rewrite <- (chunk_index_at_S _ _ Hx).
  replace (S (L - 1)) with (length b_row) by lia.
  unfold chunk_index_at, chunk_count.
  now rewrite firstn_all, filter_binary_row.
Qed.

(** X1.  When [upsample] returns on well-shaped tensors, position [t]
    of element [i] holds [bar_z[i, n]] where [n] is the number of
    positions strictly before [t] at which [b] is 1. *)
Theorem upsample_reads_count_before (bar_z : list (list (list T)))
  (b p : list (list T)) (Bn L L' D : nat) (out : list (list (list T))) :
  has_shape3 Bn L' D bar_z -> has_shape2 Bn L b ->
  upsample bar_z b p L D = Ok out ->
  forall i t, i < Bn -> t < L ->
    chunk_index_at (nth i b []) t < L' /\
    at2 out i t = at2 bar_z i (chunk_index_at (nth i b []) t).
Proof.
  intros Hz Hb Hout i t Hi Ht. pose proof (proj1 Hz) as HB.
  destruct (@upsample_cases T ST bar_z b p Bn L L' D Hz Hb)
    as [[Hrun Hall]|[Hrun _]]; [|congruence].
  rewrite Hrun in Hout.
  destruct (confidence b p); simpl in Hout; [|discriminate].
  inversion Hout; subst out. split; [now apply Hall|].
  rewrite at2_raw_expansion by lia.
  destruct (has_shape3_nth Hz Hi) as [Hn [Hl _]].
  unfold at2. rewrite Hn. symmetry. apply nth_error_nth_default.
  rewrite Hl. now apply Hall.
Qed.

(** X2.  The round trip of one stage on well-shaped tensors with binary
    flags whose first position is a boundary: it raises the upsampler's
    IndexError as soon as a batch element with the batch-wide maximum
    chunk count ends in a non-boundary position, and it returns a tensor
    of the shape of the input when every such element ends in a
    boundary. *)
Theorem round_trip_cases (x : list (list (list T))) (b p : list (list T))
  (Bn L D : nat) :
  has_shape3 Bn L D x -> has_shape2 Bn L b -> has_shape2 Bn L p ->
  0 < Bn -> 0 < L -> Forall binary_row b ->
  (forall i, i < Bn -> nth_error (nth i b []) 0 = Some s1) ->
  let n := max_count b Bn in
  ((exists i, i < Bn /\ chunk_count (nth i b []) = n /\
              nth_error (nth i b []) (L - 1) = Some s0) ->
   round_trip x b p = Raise (IndexError n 1 n))
  /\
  ((forall i, i < Bn -> chunk_count (nth i b []) = n ->
              nth_error (nth i b []) (L - 1) = Some s1) ->
   exists out, round_trip x b p = Ok out /\ has_shape3 Bn L D out).
Proof.
  intros Hx Hb Hp HB HL Hbin Hfirst n.
  destruct (max_count_spec b HB) as [Hle _]. fold n in Hle.
  assert (Hn : 0 < n).
  { specialize (Hle 0 HB).
    pose proof (chunk_count_first_boundary _ (Hfirst 0 HB)). lia. }
  pose proof (downsample_closed_form Hx Hb Hp HB) as Hd.
  pose proof (downsample_shape Hx Hb Hle) as Hxs.
  pose proof (downsample_P_shape Hb Hp Hle) as HPs.
  fold n in Hd, Hxs, HPs.
  destruct (smoothing_module_rows Hxs HPs Hn) as [bar_z [Hsm [Hbz _]]].
  assert (Hrt : round_trip x b p = upsample bar_z b p L D).
  { unfold round_trip. rewrite Hd. cbn [bind fst snd]. rewrite Hsm.
    cbn [bind]. rewrite (shape1_has_shape3 Hx HB).
    replace (shape2 x) with D; [reflexivity|].
    destruct (has_shape3_nth Hx HB) as [Hx0 [Hl0 HF0]].
    unfold shape2. destruct x as [|r x]; [discriminate|]. simpl in *.
    destruct r as [|v r]; [simpl in Hl0; lia|]. simpl.
    now inversion HF0. }
  rewrite Hrt.
  assert (Hrows : forall i, i < Bn ->
            binary_row (nth i b []) /\ length (nth i b []) = L /\
            exists last, nth_error (nth i b []) (L - 1) = Some last).
  { intros i Hi. destruct (has_shape2_nth Hb Hi) as [Hbi Hlb].
    split; [exact (Forall_nth_error _ Hbin Hbi)|]. split; [exact Hlb|].
    exists (nth (L - 1) (nth i b []) s0). apply nth_error_nth_default. lia. }
  destruct (@upsample_cases T ST bar_z b p Bn L n D Hbz Hb)
    as [[Hrun Hall]|[Hrun [i [t [Hi [Ht Hover]]]]]].
  - split.
    + intros [i [Hi [Hcnt Hlast]]]. exfalso.
      destruct (Hrows i Hi) as [Hbi [Hlb _]].
      pose proof (chunk_index_at_last Hbi Hlb HL Hlast) as Hc.
      rewrite seqb_0_1 in Hc.
      specialize (Hall i (L - 1) Hi ltac:(lia)). lia.
    + intros _. rewrite Hrun.
      destruct (@confidence_at T ST b p) as [c [Hc _]].
      { eapply same_shape2_refl_shape; eauto. }
      rewrite Hc. cbn [bind]. eexists. split; [reflexivity|].
      now apply has_shape3_raw_expansion with (L' := n).
  - split.
    + intros _. exact Hrun.
    + intros Hgood. exfalso.
      destruct (Hrows i Hi) as [Hbi [Hlb [last Hlast]]].
      pose proof (chunk_index_at_last Hbi Hlb HL Hlast) as Hc.
      pose proof (chunk_index_at_le (nth i b []) (t := t) (u := L - 1)
                    ltac:(lia)) as Hmono.
      specialize (Hle i Hi).
      assert (Hcnt : chunk_count (nth i b []) = n).
      { destruct (seqb last s1); lia. }
      rewrite (Hgood i Hi Hcnt) in Hlast. inversion Hlast; subst last.
      rewrite seqb_1_1 in Hc. lia.
Qed.

(** X7.  In a row that starts with a boundary, the index the loop of
    [upsample] reads at position [t] is the formula's [idx(t)] where
    [t] is a boundary and [idx(t) + 1] everywhere else. *)
Theorem chunk_index_at_spec_idx (b_row : list T) (t : nat) (b_t : T) :
  nth_error b_row 0 = Some s1 -> nth_error b_row t = Some b_t ->
  chunk_index_at b_row t =
  spec_idx b_row t + (if seqb b_t s1 then 0 else 1).
Proof.
  intros H0 H. unfold spec_idx. fold (chunk_index_at b_row (S t)).
  assert (Hpos : 0 < chunk_index_at b_row (S t)).
  { destruct b_row as [|x rest]; [discriminate|]. inversion H0; subst x.
    unfold chunk_index_at. simpl. rewrite seqb_1_1. simpl. lia. }
  rewrite (chunk_index_at_S _ _ H) in *.
  destruct (seqb b_t s1); lia.
Qed.

(** X3.  With [num_stages = 0] neither loop of [forward] runs: the
    result is the main network applied to the input, and no name of the
    notebook is looked up. *)
Theorem forward_zero_stages (G : globals) (dim : nat) (w : HNet_params)
  (x0 : list (list (list T))) :
  HNet_forward G (HNet_init dim 0 w) x0
  = Linear_forward (main (HNet_init dim 0 w)) x0.
Proof.
  unfold HNet_forward, compress, decompress. simpl.
  destruct (Linear_forward _ x0); reflexivity.
Qed.

(** X4.  On an empty batch [downsample] takes [max()] of an empty
    sequence and raises ValueError. *)
Theorem downsample_empty_batch (b p : list (list T)) :
  downsample [] b p = Raise ValueError.
Proof. reflexivity. Qed.

(** X5.  On sequences of length 0 the router's assignment
    [p[:, 0] = 1.0] raises IndexError. *)
Theorem router_zero_length (dim : nat) (wq wk : nat -> nat -> T) (n : nat) :
  SimilarityRouter_forward (SimilarityRouter_init dim wq wk)
                           (repeat (@nil (list T)) (S n))
  = Raise (IndexError 0 1 0).
Proof.
  unfold SimilarityRouter_forward.
  assert (Hs : has_shape3 (S n) 0 dim (repeat (@nil (list T)) (S n))).
  { split; [apply repeat_length|]. apply Forall_forall.
    intros row Hrow. apply repeat_spec in Hrow. subst row.
    split; [reflexivity|constructor]. }
  destruct (@Linear_forward_Ok T ST
              (W_q (SimilarityRouter_init dim wq wk)) _ _ _ Hs) as [Hq _].
  destruct (@Linear_forward_Ok T ST
              (W_k (SimilarityRouter_init dim wq wk)) _ _ _ Hs) as [Hk _].
  rewrite Hq, Hk. reflexivity.
Qed.

(** X6.  On compressed sequences of length 0 [smoothing_module] raises
    IndexError at [z_hat[b, 0]]. *)
Theorem smoothing_module_zero_length (P : list (list T)) (n : nat) :
  smoothing_module (repeat (@nil (list T)) (S n)) P = Raise (IndexError 0 1 0).
Proof. reflexivity. Qed.

End RoundTrip.

(** Witness of X1: two latents, an all-boundary [b]. *)
Lemma upsample_reads_count_before_witness :
  @chunk_index_at float _ (nth 0 [[1; 1]%float] []) 1 < 2.
Proof.
  refine (proj1 (@upsample_reads_count_before float _
                   [[ [2%float]; [4%float] ]] [[1; 1]%float]
                   [[1; 0.75]%float] 1 2 2 1 [[ [2%float]; [4%float] ]]
                   _ _ eq_refl 0 1 _ _)).
  - split; [reflexivity|]. repeat constructor.
  - split; [reflexivity|]. repeat constructor.
  - lia.
  - lia.
Defined.

(** Witness of X2: the batch [[1,0,1,0]] of one element ends in a
    non-boundary position. *)
Lemma round_trip_cases_witness :
  round_trip [[ [1%float]; [2%float]; [3%float]; [4%float] ]]
             [[1; 0; 1; 0]%float] [[1; 0.25; 0.75; 0.25]%float]
  = Raise (IndexError 2 1 2).
Proof.
  refine (proj1 (@round_trip_cases float _ _
                   [[ [1%float]; [2%float]; [3%float]; [4%float] ]]
                   [[1; 0; 1; 0]%float] [[1; 0.25; 0.75; 0.25]%float]
                   1 4 1 _ _ _ _ _ _ _) _).
  - split; [reflexivity|]. repeat constructor.
  - split; [reflexivity|]. repeat constructor.
  - split; [reflexivity|]. repeat constructor.
  - lia.
  - lia.
  - apply Forall_cons; [|apply Forall_nil].
    repeat apply Forall_cons; try apply Forall_nil;
      first [now left | now right].
  - intros [|i] Hi; [reflexivity|lia].
  - exists 0. repeat split; auto.
Defined.

(** Witness of X7: position 1 of [[1,0,1,0]] is not a boundary. *)
Lemma chunk_index_at_spec_idx_witness :
  @chunk_index_at float _ [1; 0; 1; 0]%float 1 =
  spec_idx [1; 0; 1; 0]%float 1 + 1.
Proof.
  exact (@chunk_index_at_spec_idx float _ _ [1; 0; 1; 0]%float 1 0%float
           eq_refl eq_refl).
Defined.

(** ** Upsampler: when it returns and what it ignores *)

Section UpsampleMore.

Context {T : Type} {ST : Scalar T}.

Lemma confidence_mismatch (b p : list (list T)) :
  same_shape2 b p = false -> confidence b p = Raise IndexError_mask.
Proof.
  intros Hs. unfold confidence, masked_assign.
  now rewrite same_shape2_map_l, Hs.
Qed.

Lemma chunk_index_at_ext (b_row b_row' : list T) (t : nat) :
  (forall j, j < t -> nth_error b_row j = nth_error b_row' j) ->
  chunk_index_at b_row t = chunk_index_at b_row' t.
Proof.
  intros H. unfold chunk_index_at. f_equal. f_equal.
  apply nth_error_eq_ext. intros j. rewrite !nth_error_firstn.
  destruct (j <? t) eqn:Hj; [|reflexivity].
  apply H. now apply Nat.ltb_lt.
Qed.

(** What [upsample] returns when it returns, position by position. *)
Lemma upsample_Ok_at (bar_z : list (list (list T))) (b p : list (list T))
  (Bn L L' D : nat) (out : list (list (list T))) :
  has_shape3 Bn L' D bar_z -> has_shape2 Bn L b ->
  upsample bar_z b p L D = Ok out ->
  out = raw_expansion bar_z b L /\
  forall i t, i < Bn -> t < L -> chunk_index_at (nth i b []) t < L'.
Proof.
  intros Hz Hb Hout.
  destruct (@upsample_cases T ST bar_z b p Bn L L' D Hz Hb)
    as [[Hrun Hall]|[Hrun _]]; [|congruence].
  rewrite Hrun in Hout.
  destruct (confidence b p); simpl in Hout; [|discriminate].
  inversion Hout. auto.
Qed.

(** X8.  On well-shaped [bar_z] and [b] with at least one position,
    [upsample] returns exactly when, for every batch element, fewer than
    [L'] of the flags before the last position are 1 and [p] has the
    shape of [b].  When its reads are in range and the shape of [p]
    differs, it raises the IndexError of the boolean mask. *)
Theorem upsample_returns_iff (bar_z : list (list (list T)))
  (b p : list (list T)) (Bn L L' D : nat) :
  has_shape3 Bn L' D bar_z -> has_shape2 Bn L b -> 0 < L ->
  ((exists out, upsample bar_z b p L D = Ok out) <->
   (forall i, i < Bn -> chunk_index_at (nth i b []) (L - 1) < L') /\
   same_shape2 b p = true)
  /\ ((forall i, i < Bn -> chunk_index_at (nth i b []) (L - 1) < L') ->
      same_shape2 b p = false ->
      upsample bar_z b p L D = Raise IndexError_mask).
Proof.
  intros Hz Hb HL.
  destruct (@upsample_cases T ST bar_z b p Bn L L' D Hz Hb)
    as [[Hrun Hall]|[Hrun [i [t [Hi [Ht Hover]]]]]].
  - split; [split|].
    + intros [out Hout]. split; [intros i Hi; apply Hall; lia|].
      destruct (same_shape2 b p) eqn:Hs; [reflexivity|].
      rewrite Hrun, (confidence_mismatch _ _ Hs) in Hout. discriminate.
    + intros [_ Hs]. destruct (confidence_at b p Hs) as [c [Hc _]].
      rewrite Hrun, Hc. simpl. eauto.
    + intros _ Hs. now rewrite Hrun, (confidence_mismatch _ _ Hs).
  - pose proof (chunk_index_at_le (nth i b []) (t := t) (u := L - 1)
                  ltac:(lia)) as Hmono.
    split; [split|].
    + intros [out Hout]. congruence.
    + intros [Hall _]. specialize (Hall i Hi). lia.
    + intros Hall _. specialize (Hall i Hi). lia.
Qed.

(** X9.  The value of [upsample] depends neither on the values in [p]
    nor on the flags of the last position: two calls whose [b] agree
    before the last position, with any [p] of the right shape, give the
    same result. *)
Theorem upsample_ignores_p_and_last_flag (bar_z : list (list (list T)))
  (b b' p p' : list (list T)) (Bn L L' D : nat) :
  has_shape3 Bn L' D bar_z ->
  has_shape2 Bn L b -> has_shape2 Bn L b' ->
  has_shape2 Bn L p -> has_shape2 Bn L p' ->
  (forall i t, i < Bn -> t + 1 < L -> at2 b i t = at2 b' i t) ->
  upsample bar_z b p L D = upsample bar_z b' p' L D.
Proof.
  intros Hz Hb Hb' Hp Hp' Hagree. pose proof (proj1 Hz) as HB.
  assert (Hidx : forall i t, i < Bn -> t < L ->
            chunk_index_at (nth i b []) t = chunk_index_at (nth i b' []) t).
  { intros i t Hi Ht. apply chunk_index_at_ext. intros j Hj.
    specialize (Hagree i j Hi ltac:(lia)). unfold at2 in Hagree.
    destruct (has_shape2_nth Hb Hi) as [Hbi _].
    destruct (has_shape2_nth Hb' Hi) as [Hbi' _].
    now rewrite Hbi, Hbi' in Hagree. }
  assert (Hraw : raw_expansion bar_z b L = raw_expansion bar_z b' L).
  { unfold raw_expansion. apply map_ext_in. intros i Hi.
    apply in_seq in Hi. apply map_ext_in. intros t Ht. apply in_seq in Ht.
    rewrite Hidx by lia. reflexivity. }
  destruct (confidence_at b p (same_shape2_refl_shape Hb Hp)) as [c [Hc _]].
  destruct (confidence_at b' p' (same_shape2_refl_shape Hb' Hp'))
    as [c' [Hc' _]].
  destruct (@upsample_cases T ST bar_z b p Bn L L' D Hz Hb)
    as [[Hrun Hall]|[Hrun [i [t [Hi [Ht Hover]]]]]];
  destruct (@upsample_cases T ST bar_z b' p' Bn L L' D Hz Hb')
    as [[Hrun' Hall']|[Hrun' [i' [t' [Hi' [Ht' Hover']]]]]].
  - rewrite Hrun, Hrun', Hc, Hc', Hraw. reflexivity.
  - specialize (Hall i' t' Hi' Ht'). rewrite Hidx in Hall by assumption. lia.
  - specialize (Hall' i t Hi Ht). rewrite <- Hidx in Hall' by assumption.
    lia.
  - now rewrite Hrun, Hrun'.
Qed.

(** X10.  The output of [upsample] is constant within a chunk: position
    0 copies latent 0 of its batch element, a position after a flag
    other than 1 repeats the position before it, and a position after a
    flag 1 copies the next latent. *)
Theorem upsample_steps_at_boundaries (bar_z : list (list (list T)))
  (b p : list (list T)) (Bn L L' D : nat) (out : list (list (list T))) :
  has_shape3 Bn L' D bar_z -> has_shape2 Bn L b ->
  upsample bar_z b p L D = Ok out ->
  forall i, i < Bn ->
    (0 < L -> at2 out i 0 = at2 bar_z i 0) /\
    forall t b_t, t + 1 < L -> at2 b i t = Some b_t ->
      (seqb b_t s1 = false -> at2 out i (t + 1) = at2 out i t) /\
      (seqb b_t s1 = true ->
       at2 out i (t + 1) =
       at2 bar_z i (chunk_index_at (nth i b []) t + 1)).
Proof.
  intros Hz Hb Hout i Hi. pose proof (proj1 Hz) as HB.
  destruct (upsample_Ok_at _ Hz Hb Hout) as [-> Hall].
  destruct (has_shape3_nth Hz Hi) as [Hn [Hl _]].
  destruct (has_shape2_nth Hb Hi) as [Hbi Hlb].
  assert (Hat : forall t, t < L ->
            at2 (raw_expansion bar_z b L) i t =
            at2 bar_z i (chunk_index_at (nth i b []) t)).
  { intros t Ht. rewrite at2_raw_expansion by lia.
    unfold at2. rewrite Hn. symmetry. apply nth_error_nth_default.
    rewrite Hl. now apply Hall. }
  split.
  - intros HL. now rewrite Hat by lia.
  - intros t b_t Ht Hbt. unfold at2 in Hbt. rewrite Hbi in Hbt.
    rewrite !Hat by lia. replace (t + 1) with (S t) by lia.
    rewrite (chunk_index_at_S _ _ Hbt).
    split; intros ->; [now rewrite Nat.add_0_r|reflexivity].
Qed.

End UpsampleMore.

(** Witness of X8: one chunk, two flags [1,1]: the read of position 1
    overruns, so [upsample] does not return. *)
Lemma upsample_returns_iff_witness :
  ~ exists out,
      upsample [[ [5%float] ]] [[1; 1]%float] [[1; 1]%float] 2 1 = Ok out.
Proof.
  intros H.
  destruct (@upsample_returns_iff float _ [[ [5%float] ]] [[1; 1]%float]
              [[1; 1]%float] 1 2 1 1) as [[Hiff _] _].
  - split; [reflexivity|]. repeat constructor.
  - split; [reflexivity|]. repeat constructor.
  - lia.
  - destruct (Hiff H) as [Hall _]. specialize (Hall 0 (le_n 1)).
    vm_compute in Hall. lia.
Defined.

(** Witness of X9: the last flag and the probabilities changed. *)
Lemma upsample_ignores_p_and_last_flag_witness :
  upsample [[ [2%float]; [4%float] ]] [[1; 1]%float] [[1; 0.75]%float] 2 1
  = upsample [[ [2%float]; [4%float] ]] [[1; 0]%float] [[1; 0.25]%float] 2 1.
Proof.
  apply (@upsample_ignores_p_and_last_flag float _
           [[ [2%float]; [4%float] ]] [[1; 1]%float] [[1; 0]%float]
           [[1; 0.75]%float] [[1; 0.25]%float] 1 2 2 1);
    try (split; [reflexivity|]; repeat constructor).
  intros [|i] [|t] Hi Ht; try lia. reflexivity.
Defined.

(** Witness of X10: three latents, flags [1,0,1]. *)
Lemma upsample_steps_at_boundaries_witness :
  at2 [[ [2%float]; [4%float]; [4%float] ]] 0 0
  = at2 [[ [2%float]; [4%float]; [6%float] ]] 0 0.
Proof.
  refine (proj1 (@upsample_steps_at_boundaries float _
                   [[ [2%float]; [4%float]; [6%float] ]]
                   [[1; 0; 1]%float] [[1; 0.25; 0.75]%float] 1 3 3 1
                   [[ [2%float]; [4%float]; [4%float] ]] _ _ eq_refl
                   0 (le_n 1)) _).
  - split; [reflexivity|]. repeat constructor.
  - split; [reflexivity|]. repeat constructor.
  - lia.
Defined.

(** ** Downsampler: extreme boundary patterns *)

Section DownsampleMore.

Context {T : Type} {ST : Scalar T}.

Lemma select_all (A : Type) (b_row : list T) (row : list A) :
  Forall (fun v => to_bool v = true) b_row -> length b_row = length row ->
  select b_row row = row.
Proof.
  unfold select. intros HF; revert row.
  induction HF as [|v b_row Hv _ IH]; intros [|a row] Hl; simpl in *;
    try discriminate; auto.
  rewrite Hv. simpl. f_equal. apply IH. lia.
Qed.

Lemma select_none (A : Type) (b_row : list T) (row : list A) :
  Forall (fun v => to_bool v = false) b_row -> select b_row row = [].
Proof.
  unfold select. intros HF; revert row.
  induction HF as [|v b_row Hv _ IH]; intros [|a row]; simpl; auto.
  rewrite Hv. apply IH.
Qed.

Lemma chunk_count_all (b_row : list T) :
  Forall (fun v => to_bool v = true) b_row ->
  chunk_count b_row = length b_row.
Proof.
  unfold chunk_count. induction 1 as [|v b_row Hv _ IH]; simpl; auto.
  rewrite Hv. simpl. now rewrite IH.
Qed.

Lemma chunk_count_none (b_row : list T) :
  Forall (fun v => to_bool v = false) b_row -> chunk_count b_row = 0.
Proof.
  unfold chunk_count. induction 1 as [|v b_row Hv _ IH]; simpl; auto.
  now rewrite Hv.
Qed.

Lemma map_nth_seq (A : Type) (l : list A) (d : A) :
  map (fun i => nth i l d) (seq 0 (length l)) = l.
Proof.
  apply nth_error_eq_ext. intros i. rewrite nth_error_map_seq.
  destruct (i <? length l) eqn:Hi.
  - apply Nat.ltb_lt in Hi. symmetry. now apply nth_error_nth_default.
  - apply Nat.ltb_ge in Hi. symmetry. now apply nth_error_None.
Qed.

(** X11.  On an all-boundary batch (every flag non-zero) [downsample]
    compresses nothing: it returns its inputs [x_hat] and [p] unchanged,
    without padding. *)
Theorem downsample_all_boundary (x_hat : list (list (list T)))
  (b p : list (list T)) (Bn L D : nat) :
  has_shape3 Bn L D x_hat -> has_shape2 Bn L b -> has_shape2 Bn L p ->
  0 < Bn -> Forall (Forall (fun v => to_bool v = true)) b ->
  downsample x_hat b p = Ok (x_hat, p).
Proof.
  intros Hx Hb Hp HB Hall.
  rewrite (downsample_closed_form Hx Hb Hp HB).
  assert (Hcnt : forall i, i < Bn -> chunk_count (nth i b []) = L).
  { intros i Hi. destruct (has_shape2_nth Hb Hi) as [Hbi Hlb].
    rewrite chunk_count_all; [exact Hlb|].
    exact (Forall_nth_error _ Hall Hbi). }
  assert (Hmax : max_count b Bn = L).
  { destruct (max_count_spec b HB) as [_ [i [Hi <-]]]. now apply Hcnt. }
  rewrite Hmax. f_equal. f_equal.
  - transitivity (map (fun i => nth i x_hat []) (seq 0 (length x_hat)));
      [|apply map_nth_seq].
    rewrite (proj1 Hx). apply map_ext_in. intros i Hi. apply in_seq in Hi.
    destruct (has_shape2_nth Hb (i:=i)) as [Hbi Hlb]; [lia|].
    destruct (has_shape3_nth Hx (i:=i)) as [_ [Hlx _]]; [lia|].
    rewrite Hcnt, Nat.sub_diag by lia. simpl. rewrite app_nil_r.
    apply select_all; [exact (Forall_nth_error _ Hall Hbi)|lia].
  - transitivity (map (fun i => nth i p []) (seq 0 (length p)));
      [|apply map_nth_seq].
    rewrite (proj1 Hp). apply map_ext_in. intros i Hi. apply in_seq in Hi.
    destruct (has_shape2_nth Hb (i:=i)) as [Hbi Hlb]; [lia|].
    destruct (has_shape2_nth Hp (i:=i)) as [_ Hlp]; [lia|].
    rewrite Hcnt, Nat.sub_diag by lia. simpl. rewrite app_nil_r.
    apply select_all; [exact (Forall_nth_error _ Hall Hbi)|lia].
Qed.

(** X12.  A batch element without any boundary is no fault for
    [downsample]: it is given [L'] zero vectors and [L'] zero
    probabilities, the padding alone. *)
Theorem downsample_element_without_boundary (x_hat : list (list (list T)))
  (b p : list (list T)) (Bn L D i : nat) :
  has_shape3 Bn L D x_hat -> has_shape2 Bn L b -> has_shape2 Bn L p ->
  i < Bn -> Forall (fun v => to_bool v = false) (nth i b []) ->
  exists x_next P_next,
    downsample x_hat b p = Ok (x_next, P_next) /\
    nth i x_next [] = repeat (repeat s0 D) (max_count b Bn) /\
    nth i P_next [] = repeat s0 (max_count b Bn).
Proof.
  intros Hx Hb Hp Hi Hnone.
  assert (HB : 0 < Bn) by lia.
  eexists _, _. split; [exact (downsample_closed_form Hx Hb Hp HB)|].
  rewrite !nth_map_seq by exact Hi.
  rewrite !select_none, chunk_count_none, Nat.sub_0_r by assumption.
  split; reflexivity.
Qed.

(** X13.  When no batch element has a boundary, [downsample] returns
    compressed sequences of length 0 and the round trip fails in the
    smoother, with IndexError at [z_hat[b, 0]]. *)
Theorem round_trip_without_boundary (x_hat : list (list (list T)))
  (b p : list (list T)) (Bn L D : nat) :
  has_shape3 Bn L D x_hat -> has_shape2 Bn L b -> has_shape2 Bn L p ->
  0 < Bn -> Forall (Forall (fun v => to_bool v = false)) b ->
  downsample x_hat b p = Ok (repeat [] Bn, repeat [] Bn) /\
  round_trip x_hat b p = Raise (IndexError 0 1 0).
Proof.
  intros Hx Hb Hp HB Hnone.
  assert (Hcnt : forall i, i < Bn -> chunk_count (nth i b []) = 0).
  { intros i Hi. destruct (has_shape2_nth Hb Hi) as [Hbi _].
    apply chunk_count_none. exact (Forall_nth_error _ Hnone Hbi). }
  assert (Hmax : max_count b Bn = 0).
  { destruct (max_count_spec b HB) as [_ [i [Hi <-]]]. now apply Hcnt. }
  assert (Hd : downsample x_hat b p = Ok (repeat [] Bn, repeat [] Bn)).
  { rewrite (downsample_closed_form Hx Hb Hp HB), Hmax.
    f_equal. f_equal.
    - apply nth_error_eq_ext. intros i. rewrite nth_error_map_seq.
      destruct (i <? Bn) eqn:Hi.
      + apply Nat.ltb_lt in Hi.
        destruct (has_shape2_nth Hb Hi) as [Hbi _].
        rewrite select_none by exact (Forall_nth_error _ Hnone Hbi).
        simpl. symmetry. rewrite nth_error_repeat; auto.
      + apply Nat.ltb_ge in Hi. symmetry. apply nth_error_None.
        now rewrite repeat_length.
    - apply nth_error_eq_ext. intros i. rewrite nth_error_map_seq.
      destruct (i <? Bn) eqn:Hi.
      + apply Nat.ltb_lt in Hi.
        destruct (has_shape2_nth Hb Hi) as [Hbi _].
        rewrite select_none by exact (Forall_nth_error _ Hnone Hbi).
        simpl. symmetry. rewrite nth_error_repeat; auto.
      + apply Nat.ltb_ge in Hi. symmetry. apply nth_error_None.
        now rewrite repeat_length. }
  split; [exact Hd|].
  unfold round_trip. rewrite Hd. cbn [bind fst snd].
  destruct Bn as [|k]; [lia|]. reflexivity.
Qed.

End DownsampleMore.

(** Witness of X11: a batch of one with flags [1,1]. *)
Lemma downsample_all_boundary_witness :
  downsample [[ [3%float]; [7%float] ]] [[1; 1]%float] [[1; 0.75]%float]
  = Ok ([[ [3%float]; [7%float] ]], [[1; 0.75]%float]).
Proof.
  apply (@downsample_all_boundary float _ _ _ _ 1 2 1);
    try (split; [reflexivity|]; repeat constructor); try lia.
  repeat constructor.
Defined.

(** Witness of X12: element 0 of a batch of two has no boundary. *)
Lemma downsample_element_without_boundary_witness :
  exists x_next P_next,
    downsample [[ [3%float]; [7%float] ]; [ [1%float]; [2%float] ]]
               [[0; 0]%float; [1; 1]%float]
               [[0.25; 0.25]%float; [1; 0.75]%float]
    = Ok (x_next, P_next) /\
    nth 0 x_next [] = [[0%float]; [0%float]].
Proof.
  destruct (@downsample_element_without_boundary float _
              [[ [3%float]; [7%float] ]; [ [1%float]; [2%float] ]]
              [[0; 0]%float; [1; 1]%float]
              [[0.25; 0.25]%float; [1; 0.75]%float] 2 2 1 0)
    as [x_next [P_next [H [Hx _]]]];
    try (split; [reflexivity|]; repeat constructor); try lia.
  - repeat constructor.
  - exists x_next, P_next. split; [exact H|]. exact Hx.
Defined.

(** Witness of X13: a batch of one with flags [0,0]. *)
Lemma round_trip_without_boundary_witness :
  round_trip [[ [3%float]; [7%float] ]] [[0; 0]%float] [[0.25; 0.25]%float]
  = Raise (IndexError 0 1 0).
Proof.
  apply (@round_trip_without_boundary float _
           [[ [3%float]; [7%float] ]] [[0; 0]%float] [[0.25; 0.25]%float]
           1 2 1);
    try (split; [reflexivity|]; repeat constructor); try lia.
  repeat constructor.
Defined.

(** ** Smoother: causality *)

Section SmootherMore.

Context {T : Type} {ST : Scalar T}.

Lemma at2_in_shape (x : list (list (list T))) (Bn L D i t : nat) :
  has_shape3 Bn L D x -> i < Bn -> t < L ->
  exists v, at2 x i t = Some v /\ length v = D.
Proof.
  intros Hx Hi Ht. destruct (has_shape3_nth Hx Hi) as [Hn [Hl HF]].
  assert (Hlt : t < length (nth i x [])) by lia.
  exists (nth t (nth i x []) []). unfold at2. rewrite Hn.
  split; [now apply nth_error_nth_default|].
  exact (Forall_nth_error _ HF (nth_error_nth_default _ [] Hlt)).
Qed.


(** X14.  [smoothing_module] has no look-ahead and does not mix batch
    elements: slot [t] of element [i] of its output is determined by the
    slots [0..t] of element [i] of [z_hat] and [P]. *)
Theorem smoothing_module_causal (z_hat z_hat' : list (list (list T)))
  (P P' : list (list T)) (Bn L' D : nat) :
  has_shape3 Bn L' D z_hat -> has_shape3 Bn L' D z_hat' ->
  has_shape2 Bn L' P -> has_shape2 Bn L' P' -> 0 < L' ->
  exists bar_z bar_z',
    smoothing_module z_hat P = Ok bar_z /\
    smoothing_module z_hat' P' = Ok bar_z' /\
    forall i t, i < Bn -> t < L' ->
      (forall j, j <= t -> at2 z_hat i j = at2 z_hat' i j /\
                           at2 P i j = at2 P' i j) ->
      at2 bar_z i t = at2 bar_z' i t.
Proof.
  intros Hz Hz' HP HP' HL.
  destruct (smoothing_module_rows Hz HP HL) as [bz [Hrun [_ Hrec]]].
  destruct (smoothing_module_rows Hz' HP' HL) as [bz' [Hrun' [_ Hrec']]].
  exists bz, bz'. split; [exact Hrun|]. split; [exact Hrun'|].
  intros i t Hi. induction t as [|t IH]; intros Ht Hagree.
  - destruct (Hrec i Hi) as [H0 _]. destruct (Hrec' i Hi) as [H0' _].
    destruct (Hagree 0 (le_n 0)) as [Hz0 _]. congruence.
  - destruct (Hrec i Hi) as [_ Hstep]. destruct (Hrec' i Hi) as [_ Hstep'].
    destruct (Hstep (S t) ltac:(lia))
      as [z_t [P_t [prev [Hzt [HPt [Hprev Hcur]]]]]].
    destruct (Hstep' (S t) ltac:(lia))
      as [z_t' [P_t' [prev' [Hzt' [HPt' [Hprev' Hcur']]]]]].
    destruct (Hagree (S t) (le_n _)) as [Hza HPa].
    replace (S t - 1) with t in * by lia.
    assert (Hp : at2 bz i t = at2 bz' i t).
    { apply IH; [lia|]. intros j Hj. apply Hagree. lia. }
    assert (z_t = z_t') by congruence.
    assert (P_t = P_t') by congruence.
    assert (prev = prev') by congruence.
    subst. congruence.
Qed.

End SmootherMore.

(** Witness of X14: two inputs that differ in slot 1 only agree in
    slot 0 of the output. *)
Lemma smoothing_module_causal_witness :
  exists bar_z bar_z',
    smoothing_module [[ [3%float]; [7%float] ]] [[1; 0.5]%float]
    = Ok bar_z /\
    smoothing_module [[ [3%float]; [9%float] ]] [[1; 0.25]%float]
    = Ok bar_z' /\
    at2 bar_z 0 0 = at2 bar_z' 0 0.
Proof.
  destruct (@smoothing_module_causal float _
              [[ [3%float]; [7%float] ]] [[ [3%float]; [9%float] ]]
              [[1; 0.5]%float] [[1; 0.25]%float] 1 2 1)
    as [bz [bz' [H [H' Hc]]]];
    try (split; [reflexivity|]; repeat constructor); try lia.
  exists bz, bz'. split; [exact H|]. split; [exact H'|].
  apply Hc; try lia. intros j Hj.
  assert (j = 0) by lia. subst j. split; reflexivity.
Defined.

(** ** Smoother: the gate, over the reals *)

Section SmootherReal.

Local Open Scope R_scope.


Lemma vadd_vscale_zero (z prev : list R) :
  length prev = length z ->
  vadd (vscale 0 z) (vscale (1 - 0) prev) = prev.
Proof.
  unfold vadd, vscale.
  revert prev; induction z as [|a z IH]; intros [|c prev] Hl;
    simpl in *; try discriminate; auto.
  f_equal; [ring|]. apply IH. lia.
Qed.


(** The recurrence on well-shaped real tensors, with the widths. *)
Lemma smoothing_module_step (z_hat : list (list (list R)))
  (P : list (list R)) (Bn L' D : nat) :
  has_shape3 Bn L' D z_hat -> has_shape2 Bn L' P -> (0 < L')%nat ->
  exists bar_z,
    smoothing_module z_hat P = Ok bar_z /\ has_shape3 Bn L' D bar_z /\
    forall i, (i < Bn)%nat ->
      at2 bar_z i 0 = at2 z_hat i 0 /\
      forall t, (1 <= t < L')%nat ->
        exists z_t P_t prev,
          at2 z_hat i t = Some z_t /\ at2 P i t = Some P_t /\
          at2 bar_z i (t - 1) = Some prev /\
          length z_t = D /\ length prev = D /\
          at2 bar_z i t =
            Some (vadd (vscale P_t z_t) (vscale (1 - P_t) prev)).
Proof.
  intros Hz HP HL.
  destruct (smoothing_module_rows Hz HP HL) as [bz [Hrun [Hs Hrec]]].
  exists bz. split; [exact Hrun|]. split; [exact Hs|].
  intros i Hi. destruct (Hrec i Hi) as [H0 Hstep]. split; [exact H0|].
  intros t Ht.
  destruct (Hstep t Ht) as [z_t [P_t [prev [Hzt [HPt [Hprev Hcur]]]]]].
  exists z_t, P_t, prev.
  destruct (at2_in_shape Hz Hi (t:=t)) as [v [Hv Hlv]]; [lia|].
  destruct (at2_in_shape Hs Hi (t:=(t - 1)%nat)) as [u [Hu Hlu]]; [lia|].
  assert (v = z_t) by congruence. assert (u = prev) by congruence.
  subst. repeat split; auto.
Qed.




End SmootherReal.

Section SmootherPadding.

Local Open Scope R_scope.

(** X18.  What the pipeline leaves in the padding: behind the chunks of
    a batch element, every padding slot of the smoothed tensor repeats
    the element's last real smoothed latent, since [downsample] pads the
    probabilities with 0. *)
Theorem smoother_fills_padding (x_hat : list (list (list R)))
  (b p : list (list R)) (Bn L D : nat) :
  has_shape3 Bn L D x_hat -> has_shape2 Bn L b -> has_shape2 Bn L p ->
  (0 < Bn)%nat ->
  (forall i, (i < Bn)%nat -> (0 < chunk_count (nth i b []))%nat) ->
  exists x_next P_next bar_z,
    downsample x_hat b p = Ok (x_next, P_next) /\
    smoothing_module x_next P_next = Ok bar_z /\
    forall i t, (i < Bn)%nat ->
      (chunk_count (nth i b []) <= t < max_count b Bn)%nat ->
      at2 bar_z i t = at2 bar_z i (chunk_count (nth i b []) - 1).
Proof.
  intros Hx Hb Hp HB Hpos.
  destruct (max_count_spec b HB) as [Hle _].
  assert (Hn : (0 < max_count b Bn)%nat).
  { specialize (Hle 0%nat HB). specialize (Hpos 0%nat HB). lia. }
  pose proof (downsample_closed_form Hx Hb Hp HB) as Hd.
  pose proof (downsample_shape Hx Hb Hle) as Hxs.
  pose proof (downsample_P_shape Hb Hp Hle) as HPs.
  destruct (smoothing_module_step Hxs HPs Hn) as [bz [Hsm [_ Hrec]]].
  eexists _, _, bz. split; [exact Hd|]. split; [exact Hsm|].
  intros i t Hi [Hlo Hhi].
  remember (t - chunk_count (nth i b []))%nat as d eqn:Hd'.
  revert t Hlo Hhi Hd'. induction d as [|d IH]; intros t Hlo Hhi Hd'.
  - assert (Ht : t = chunk_count (nth i b [])) by lia.
    specialize (Hpos i Hi).
    destruct (Hrec i Hi) as [_ Hstep].
    destruct (Hstep t ltac:(lia))
      as [z_t [P_t [prev [_ [HPt [Hprev [Hlz [Hlp Hcur]]]]]]]].
    assert (HP0 : P_t = 0).
    { unfold at2 in HPt. rewrite nth_error_map_seq in HPt.
      replace (i <? Bn)%nat with true in HPt
        by (symmetry; apply Nat.ltb_lt; exact Hi).
      cbn [Nat.add] in HPt.
      destruct (has_shape2_nth Hb Hi) as [_ Hlb].
      destruct (has_shape2_nth Hp Hi) as [_ Hlp'].
      rewrite nth_error_app2 in HPt by (rewrite length_select; lia).
      rewrite length_select in HPt by lia.
      rewrite nth_error_repeat in HPt by (simpl; lia).
      now inversion HPt. }
    subst P_t. rewrite Hcur, <- Ht, Hprev. f_equal.
    apply vadd_vscale_zero. congruence.
  - specialize (Hpos i Hi).
    destruct (Hrec i Hi) as [_ Hstep].
    destruct (Hstep t ltac:(lia))
      as [z_t [P_t [prev [_ [HPt [Hprev [Hlz [Hlp Hcur]]]]]]]].
    assert (HP0 : P_t = 0).
    { unfold at2 in HPt. rewrite nth_error_map_seq in HPt.
      replace (i <? Bn)%nat with true in HPt
        by (symmetry; apply Nat.ltb_lt; exact Hi).
      cbn [Nat.add] in HPt.
      destruct (has_shape2_nth Hb Hi) as [_ Hlb].
      destruct (has_shape2_nth Hp Hi) as [_ Hlp'].
      rewrite nth_error_app2 in HPt by (rewrite length_select; lia).
      rewrite length_select in HPt by lia.
      rewrite nth_error_repeat in HPt by (simpl; lia).
      now inversion HPt. }
    subst P_t.
    rewrite <- (IH (t - 1)%nat) by lia.
    rewrite Hcur, Hprev. f_equal. apply vadd_vscale_zero. congruence.
Qed.

Lemma Reqb_1_0 : Reqb 1 0 = false.
Proof. destruct (Reqb 1 0) eqn:E; auto. apply Reqb_true in E. lra. Qed.

Lemma Reqb_0_0 : Reqb 0 0 = true.
Proof. now apply Reqb_true. Qed.




(** Witness of X18: a batch of two with one and two chunks. *)
Lemma smoother_fills_padding_witness :
  exists x_next P_next bar_z,
    downsample [[ [3]; [7] ]; [ [1]; [2] ]] [[1; 0]; [1; 1]]
               [[1; 1 / 4]; [1; 3 / 4]] = Ok (x_next, P_next) /\
    smoothing_module x_next P_next = Ok bar_z.
Proof.
  destruct (@smoother_fills_padding [[ [3]; [7] ]; [ [1]; [2] ]]
              [[1; 0]; [1; 1]] [[1; 1 / 4]; [1; 3 / 4]] 2 2 1)
    as [x_next [P_next [bz [Hd [Hs _]]]]];
    try (split; [reflexivity|]; repeat constructor); try lia.
  - intros i Hi. unfold chunk_count, to_bool.
    destruct i as [|[|i]]; [| |lia]; simpl; rewrite ?Reqb_1_0; simpl; lia.
  - exists x_next, P_next, bz. split; assumption.
Defined.

End SmootherPadding.

(** ** Router: where the boundaries fall *)

Section RouterMore.

Context {T : Type} {ST : Scalar T}.



End RouterMore.

Section RouterBoundaries.

Local Open Scope R_scope.


Lemma filter_all_true (A : Type) (f : A -> bool) (l : list A) :
  Forall (fun a => f a = true) l -> filter f l = l.
Proof.
  induction 1 as [|a l Ha _ IH]; simpl; auto. now rewrite Ha, IH.
Qed.

Lemma to_bool_R (v : R) : to_bool v = true <-> v <> 0.
Proof.
  unfold to_bool. change (@seqb R R_Scalar) with Reqb.
  change (@s0 R R_Scalar) with 0.
  destruct (Reqb v 0) eqn:E; simpl; split; intros H; auto.
  - discriminate.
  - apply Reqb_true in E. contradiction.
  - intros Hv. apply Reqb_true in Hv. congruence.
Qed.

Lemma select_threshold_nonzero (p_row : list R) :
  Forall (fun v => to_bool v = true)
         (select (map indicator_of p_row) p_row).
Proof.
  unfold select. induction p_row as [|v p_row IH]; simpl; [constructor|].
  unfold indicator_of at 1.
  change (@sgeb R R_Scalar) with Rgeb. change (@shalf R R_Scalar) with (1 / 2).
  change (@s1 R R_Scalar) with 1. change (@s0 R R_Scalar) with 0.
  destruct (Rgeb v (1 / 2)) eqn:E.
  - replace (to_bool 1) with true by (symmetry; apply to_bool_R; lra).
    simpl. constructor; [|exact IH].
    apply Rgeb_true in E. apply to_bool_R. lra.
  - destruct (to_bool 0) eqn:E0; [|exact IH].
    apply to_bool_R in E0. lra.
Qed.

(** X20.  Over the reals, when the flags are the thresholded
    probabilities ([b = 1] where [p >= 0.5], else 0), the chunk count
    that [downsample] does not return can be read off its second
    result: it is the number of non-zero entries of the element's row of
    [P_next]. *)
Theorem chunk_count_from_P_next (x_hat : list (list (list R)))
  (p : list (list R)) (Bn L D : nat) :
  has_shape3 Bn L D x_hat -> has_shape2 Bn L p -> (0 < Bn)%nat ->
  let b := map (map indicator_of) p in
  exists x_next P_next,
    downsample x_hat b p = Ok (x_next, P_next) /\
    forall i, (i < Bn)%nat ->
      length (filter to_bool (nth i P_next [])) = chunk_count (nth i b []).
Proof.
  intros Hx Hp HB b.
  assert (Hb : has_shape2 Bn L b).
  { destruct Hp as [Hl HF]. split; [unfold b; now rewrite length_map|].
    apply Forall_forall. intros row Hrow.
    apply in_map_iff in Hrow as [p_row [<- Hin]].
    rewrite length_map. rewrite Forall_forall in HF. now apply HF. }
  eexists _, _. split; [exact (downsample_closed_form Hx Hb Hp HB)|].
  intros i Hi. rewrite nth_map_seq by exact Hi.
  destruct (has_shape2_nth Hp Hi) as [Hpi Hlp].
  destruct (has_shape2_nth Hb Hi) as [Hbi Hlb].
  assert (Hrow : nth i b [] = map indicator_of (nth i p [])).
  { apply nth_error_nth. unfold b. now rewrite nth_error_map, Hpi. }
  rewrite filter_app.
  replace (filter to_bool (repeat s0 _)) with (@nil R).
  - rewrite app_nil_r, filter_all_true.
    + apply length_select. lia.
    + rewrite Hrow. apply select_threshold_nonzero.
  - symmetry. generalize (max_count b Bn - chunk_count (nth i b []))%nat.
    intros n. induction n as [|n IH]; simpl; auto.
    unfold to_bool at 1. simpl. now rewrite Reqb_0_0.
Qed.


(** Witness of X20: a batch of two. *)
Lemma chunk_count_from_P_next_witness :
  exists x_next P_next,
    downsample [[ [3]; [7] ]; [ [1]; [2] ]]
               (map (map indicator_of) [[1; 1 / 4]; [1; 3 / 4]])
               [[1; 1 / 4]; [1; 3 / 4]] = Ok (x_next, P_next).
Proof.
  destruct (@chunk_count_from_P_next [[ [3]; [7] ]; [ [1]; [2] ]]
              [[1; 1 / 4]; [1; 3 / 4]] 2 2 1) as [x_next [P_next [H _]]];
    try (split; [reflexivity|]; repeat constructor); try lia.
  exists x_next, P_next. exact H.
Defined.

End RouterBoundaries.

(** ** HNet.forward: shapes, lengths and faults *)

Section ForwardMore.

Context {T : Type} {ST : Scalar T} {SL : ScalarLaws T}.

Lemma shape2_has_shape3 (x : list (list (list T))) (Bn L D : nat) :
  has_shape3 Bn L D x -> 0 < Bn -> 0 < L -> shape2 x = D.
Proof.
  intros Hx HB HL. destruct (has_shape3_nth Hx HB) as [Hx0 [Hl0 HF0]].
  unfold shape2. destruct x as [|r x]; [discriminate|]. simpl in *.
  destruct r as [|v r]; [simpl in Hl0; lia|]. simpl. now inversion HF0.
Qed.

Lemma chunk_count_le_length (b_row : list T) :
  chunk_count b_row <= length b_row.
Proof.
  unfold chunk_count. induction b_row as [|x l IH]; simpl; [lia|].
  destruct (to_bool x); simpl; lia.
Qed.

Lemma max_count_le (b : list (list T)) (Bn L : nat) :
  has_shape2 Bn L b -> 0 < Bn -> max_count b Bn <= L.
Proof.
  intros Hb HB. destruct (max_count_spec b HB) as [_ [i [Hi <-]]].
  destruct (has_shape2_nth Hb Hi) as [_ <-]. apply chunk_count_le_length.
Qed.

(** A row of [map indicator_of] holds only 0 and 1. *)
Lemma binary_row_indicator (p_row : list T) :
  binary_row (map indicator_of p_row).
Proof.
  unfold binary_row. induction p_row as [|v l IH]; simpl; constructor; auto.
  unfold indicator_of. destruct (sgeb v shalf); [now right|now left].
Qed.

(** The in-place sum of two tensors of one shape. *)
Lemma tensor3_add_Ok (z sk : list (list (list T))) (Bn L D : nat) :
  has_shape3 Bn L D z -> has_shape3 Bn L D sk ->
  tensor3_add z sk = Ok (map2 (map2 vadd) z sk) /\
  has_shape3 Bn L D (map2 (map2 vadd) z sk).
Proof.
  intros [Hlz HFz] [Hls HFs]. unfold tensor3_add.
  replace (length z =? length sk) with true
    by (symmetry; apply Nat.eqb_eq; lia).
  replace (forallb _ (combine z sk)) with true.
  - split; [reflexivity|]. split; [rewrite length_map2; lia|].
    apply Forall_forall. intros row Hrow.
    apply In_nth_error in Hrow as [i Hi]. rewrite nth_error_map2 in Hi.
    destruct (nth_error z i) as [zr|] eqn:Ez; [|discriminate].
    destruct (nth_error sk i) as [sr|] eqn:Es; [|discriminate].
    inversion Hi; subst row.
    destruct (Forall_nth_error _ HFz Ez) as [Hzl Hzf].
    destruct (Forall_nth_error _ HFs Es) as [Hsl Hsf].
    split; [rewrite length_map2; lia|].
    apply Forall_forall. intros v Hv.
    apply In_nth_error in Hv as [t Ht]. rewrite nth_error_map2 in Ht.
    destruct (nth_error zr t) as [zv|] eqn:Ezv; [|discriminate].
    destruct (nth_error sr t) as [sv|] eqn:Esv; [|discriminate].
    inversion Ht; subst v. unfold vadd. rewrite length_map2.
    rewrite (Forall_nth_error _ Hzf Ezv), (Forall_nth_error _ Hsf Esv). lia.
  - symmetry. apply forallb_forall. intros [zr sr] Hin. cbn [fst snd].
    rewrite Forall_forall in HFz, HFs.
    apply same_shape2_refl_shape with (Bn := L) (L := D).
    + apply HFz. eapply in_combine_l; eauto.
    + apply HFs. eapply in_combine_r; eauto.
Qed.

(** [nn.Linear] fails on a row exactly when one of its vectors has not
    the layer's input width, and then with RuntimeError. *)
Lemma Linear_row_cases (lin : Linear) (row : list (list T)) :
  (Forall (fun v => length v = in_features lin) row /\
   mapM (Linear_vec lin) row = Ok (map (Linear_apply lin) row)) \/
  (Exists (fun v => length v <> in_features lin) row /\
   mapM (Linear_vec lin) row = Raise RuntimeError).
Proof.
  induction row as [|v row IH]; [left; split; [constructor|reflexivity]|].
  cbn [mapM]. unfold Linear_vec at 1 3.
  destruct (length v =? in_features lin) eqn:E.
  - apply Nat.eqb_eq in E. cbn [bind].
    destruct IH as [[HF ->]|[HE ->]].
    + left. split; [now constructor|reflexivity].
    + right. split; [now apply Exists_cons_tl|reflexivity].
  - apply Nat.eqb_neq in E. right. split; [now apply Exists_cons_hd|].
    reflexivity.
Qed.

Lemma Linear_forward_wrong_width (lin : Linear) (x : list (list (list T))) :
  Exists (Exists (fun v => length v <> in_features lin)) x ->
  Linear_forward lin x = Raise RuntimeError.
Proof.
  unfold Linear_forward. induction x as [|row x IH]; intros H.
  - inversion H.
  - cbn [mapM]. destruct (Linear_row_cases lin row) as [[HF ->]|[_ ->]];
      [|reflexivity].
    cbn [bind]. inversion H as [? ? Hrow|? ? Hx]; subst.
    + exfalso. rewrite Forall_forall in HF.
      apply Exists_exists in Hrow as [v [Hin Hv]]. now apply Hv, HF.
    + now rewrite (IH Hx).
Qed.

Lemma nth_snoc_lt (A : Type) (l : list A) (x d : A) (i : nat) :
  i < length l -> nth i (l ++ [x]) d = nth i l d.
Proof. intros H. now apply app_nth1. Qed.

Lemma nth_snoc_eq (A : Type) (l : list A) (x d : A) (n : nat) :
  length l = n -> nth n (l ++ [x]) d = x.
Proof. intros <-. rewrite app_nth2 by lia. now rewrite Nat.sub_diag. Qed.

(** The compression loop with [downsample] bound as in the notebook:
    what it leaves in [xs] and [ps]. *)
Lemma compress_stages (G : globals) (dim n_stages : nat) (w : HNet_params)
  (x0 : list (list (list T))) (Bn L : nat) :
  lookup G "downsample" = Ok (Fn_downsample downsample) ->
  has_shape3 Bn L dim x0 -> 0 < Bn -> 0 < L ->
  exists xs ps,
    compress G (HNet_init dim n_stages w) x0 = Ok (xs, ps) /\
    length xs = S n_stages /\ length ps = n_stages /\
    nth 0 xs [] = x0 /\ last xs [] = nth n_stages xs [] /\
    (forall s, s <= n_stages ->
       0 < shape1 (nth s xs []) /\
       has_shape3 Bn (shape1 (nth s xs [])) dim (nth s xs [])) /\
    (forall s, s < n_stages ->
       shape1 (nth (S s) xs []) <= shape1 (nth s xs []) /\
       exists p b P_next,
         nth_error ps s = Some (p, b, P_next) /\
         has_shape2 Bn (shape1 (nth s xs [])) p /\
         has_shape2 Bn (shape1 (nth s xs [])) b /\
         has_shape2 Bn (shape1 (nth (S s) xs [])) P_next).
Proof.
  intros HG Hx HB HL. unfold compress. rewrite py_range_0.
  match goal with |- context [for_each _ ?f _] => set (body := f) end.
  pose (Inv := fun (t : nat)
                   (st : list (list (list (list T))) *
                         list (list (list T) * list (list T) * list (list T)))
               =>
    length (fst st) = S t /\ length (snd st) = t /\
    nth 0 (fst st) [] = x0 /\ last (fst st) [] = nth t (fst st) [] /\
    (forall s, s <= t ->
       0 < shape1 (nth s (fst st) []) /\
       has_shape3 Bn (shape1 (nth s (fst st) [])) dim (nth s (fst st) [])) /\
    (forall s, s < t ->
       shape1 (nth (S s) (fst st) []) <= shape1 (nth s (fst st) []) /\
       exists p b P_next,
         nth_error (snd st) s = Some (p, b, P_next) /\
         has_shape2 Bn (shape1 (nth s (fst st) [])) p /\
         has_shape2 Bn (shape1 (nth s (fst st) [])) b /\
         has_shape2 Bn (shape1 (nth (S s) (fst st) [])) P_next)).
  destruct (@for_each_total _ Inv body n_stages 0 ([x0], []))
    as [[xs ps] [Hrun HI]].
  - unfold Inv. cbn [fst snd length nth last].
    do 4 (split; [reflexivity|]). split.
    + intros s Hs. assert (s = 0) by lia. subst s. cbn [nth].
      rewrite (shape1_has_shape3 Hx HB). now split.
    + intros s Hs. lia.
  - intros t [xs ps] _ HI. unfold Inv in HI. cbn [fst snd] in HI.
    destruct HI as [Hlx [Hlp [H0 [Hlast [Hsh Hst]]]]].
    destruct (Hsh t (Nat.le_refl t)) as [HLt Hxt].
    set (Lt := shape1 (nth t xs [])) in *.
    set (m := HNet_init dim n_stages w).
    destruct (@Linear_forward_Ok T ST (encoder m) (nth t xs []) Bn Lt Hxt)
      as [He Hxh].
    change (out_features (encoder m)) with dim in Hxh.
    destruct (router_returns (router_wq w) (router_wk w) Hxh HLt)
      as [p [b [Hr [Hp [Hb Hb0]]]]].
    destruct (max_count_spec b HB) as [Hle _].
    pose proof (downsample_closed_form Hxh Hb Hp HB) as Hd.
    pose proof (downsample_shape Hxh Hb Hle) as Hxn.
    pose proof (downsample_P_shape Hb Hp Hle) as HPn.
    pose proof (max_count_le Hb HB) as Hmax.
    assert (Hpos : 0 < max_count b Bn).
    { specialize (Hle 0 HB).
      pose proof (chunk_count_first_boundary _ (Hb0 0 HB)). lia. }
    unfold body. cbn [fst snd]. rewrite Hlast.
    fold m. rewrite He. cbn [bind].
    change (router m) with
      (SimilarityRouter_init dim (router_wq w) (router_wk w)).
    rewrite Hr. cbn [bind]. rewrite HG. cbn [bind]. rewrite Hd. cbn [bind].
    eexists; split; [reflexivity|].
    match goal with |- Inv _ (xs ++ [?xn], ps ++ [(_, _, ?Pn)]) =>
      set (x_next := xn) in *; set (P_next := Pn) in * end.
    assert (Hs1 : shape1 x_next = max_count b Bn)
      by exact (shape1_has_shape3 Hxn HB).
    unfold Inv. cbn [fst snd].
    split; [rewrite length_app; simpl; lia|].
    split; [rewrite length_app; simpl; lia|].
    split; [rewrite nth_snoc_lt by lia; exact H0|].
    split; [rewrite last_last; symmetry; now apply nth_snoc_eq|].
    split.
    + intros s Hs. destruct (Nat.eq_dec s (S t)) as [->|Hne].
      * rewrite (nth_snoc_eq xs x_next [] Hlx), Hs1. now split.
      * rewrite nth_snoc_lt by lia. apply Hsh. lia.
    + intros s Hs. destruct (Nat.eq_dec s t) as [->|Hne].
      * rewrite (nth_snoc_eq xs x_next [] Hlx), Hs1.
        rewrite nth_snoc_lt by lia. fold Lt. split; [exact Hmax|].
        exists p, b, P_next. split.
        { rewrite nth_error_app2 by lia.
          replace (t - length ps) with 0 by lia. reflexivity. }
        split; [exact Hp|]. split; [exact Hb|exact HPn].
      * rewrite !nth_snoc_lt by lia.
        destruct (Hst s ltac:(lia)) as [Hmono [p' [b' [P' [Hn HH]]]]].
        split; [exact Hmono|]. exists p', b', P'. split; [|exact HH].
        rewrite nth_error_app1 by lia. exact Hn.
  - exists xs, ps. unfold Inv in HI. cbn [fst snd Nat.add] in HI.
    split; [exact Hrun|exact HI].
Qed.

(** X21.  The compression loop of [forward] on a non-empty batch of
    non-empty sequences of width [dim]: it returns, [xs] holds the input
    followed by one tensor per stage, each of the input's batch size and
    width, and the sequence lengths never grow and never reach 0. *)
Theorem compress_lengths_never_grow (dim n_stages : nat) (w : HNet_params)
  (x0 : list (list (list T))) (Bn L : nat) :
  has_shape3 Bn L dim x0 -> 0 < Bn -> 0 < L ->
  exists xs ps,
    compress notebook_globals (HNet_init dim n_stages w) x0 = Ok (xs, ps) /\
    length xs = S n_stages /\ length ps = n_stages /\ nth 0 xs [] = x0 /\
    (forall s, s <= n_stages ->
       has_shape3 Bn (shape1 (nth s xs [])) dim (nth s xs [])) /\
    (forall s, s < n_stages ->
       1 <= shape1 (nth (S s) xs []) <= shape1 (nth s xs [])).
Proof.
  intros Hx HB HL.
  destruct (@compress_stages notebook_globals dim n_stages w x0 Bn L
              lookup_downsample Hx HB HL)
    as [xs [ps [Hc [Hlx [Hlp [H0 [_ [Hsh Hst]]]]]]]].
  exists xs, ps. do 4 (split; [assumption|]). split.
  - intros s Hs. now apply Hsh.
  - intros s Hs. destruct (Hsh (S s) ltac:(lia)) as [Hpos _].
    destruct (Hst s Hs) as [Hmono _]. lia.
Qed.

(** X22.  A vector of a width other than [dim] anywhere in the input
    makes [forward] raise RuntimeError at its first linear layer,
    whatever the number of stages and whatever the module-level names are
    bound to. *)
Theorem forward_wrong_width (G : globals) (dim n_stages : nat)
  (w : HNet_params) (x0 : list (list (list T))) :
  Exists (Exists (fun v => length v <> dim)) x0 ->
  HNet_forward G (HNet_init dim n_stages w) x0 = Raise RuntimeError.
Proof.
  intros H. unfold HNet_forward, compress. rewrite py_range_0.
  destruct n_stages as [|k].
  - change (num_stages (HNet_init dim 0 w)) with 0.
    cbn [seq for_each bind last].
    now rewrite (@Linear_forward_wrong_width (main (HNet_init dim 0 w)) x0 H).
  - change (num_stages (HNet_init dim (S k) w)) with (S k).
    cbn [seq for_each bind last].
    now rewrite (@Linear_forward_wrong_width
                   (encoder (HNet_init dim (S k) w)) x0 H).
Qed.


(** The decompression loop, started at stage [k], with [ema_smooth]
    bound to a smoother [sm] that keeps shapes: it ends with a tensor of
    the shape of [xs[0]], or the upsampler overruns. *)
Lemma decompress_from (sm : list (list (list T)) -> list (list T) ->
                            result (list (list (list T))))
  (dim n_stages : nat) (w : HNet_params)
  (xs : list (list (list (list T))))
  (ps : list (list (list T) * list (list T) * list (list T))) (Bn : nat) :
  (forall z P L', has_shape3 Bn L' dim z -> has_shape2 Bn L' P -> 0 < L' ->
     exists bar_z, sm z P = Ok bar_z /\ has_shape3 Bn L' dim bar_z) ->
  0 < Bn -> length xs = S n_stages ->
  (forall s, s <= n_stages ->
     0 < shape1 (nth s xs []) /\
     has_shape3 Bn (shape1 (nth s xs [])) dim (nth s xs [])) ->
  (forall s, s < n_stages ->
     shape1 (nth (S s) xs []) <= shape1 (nth s xs []) /\
     exists p b P_next,
       nth_error ps s = Some (p, b, P_next) /\
       has_shape2 Bn (shape1 (nth s xs [])) p /\
       has_shape2 Bn (shape1 (nth s xs [])) b /\
       has_shape2 Bn (shape1 (nth (S s) xs [])) P_next) ->
  let G := ("ema_smooth", Fn_smooth sm) :: notebook_globals in
  let m := HNet_init dim n_stages w in
  let body := fun (s : nat) (zs : list (list (list (list T)))) =>
    f <- lookup G "ema_smooth" ;;
    match f with
    | Fn_smooth ema_smooth =>
        rec <- get 0 ps s ;;
        let '(p, b, P_next) := rec in
        bar_z <- ema_smooth (last zs []) P_next ;;
        g <- lookup G "upsample" ;;
        match g with
        | Fn_upsample up =>
            xs_s <- get 0 xs s ;;
            z_s <- up bar_z b p (shape1 xs_s) (shape2 xs_s) ;;
            e <- Linear_forward (encoder m) xs_s ;;
            sk <- Linear_forward (linear_skip m) e ;;
            z_s <- tensor3_add z_s sk ;;
            z_hat_s <- Linear_forward (decoder m) z_s ;;
            Ok (zs ++ [z_hat_s])
        | _ => Raise TypeError
        end
    | _ => Raise TypeError
    end in
  forall k, k <= n_stages ->
  forall zs, has_shape3 Bn (shape1 (nth k xs [])) dim (last zs []) ->
    (exists zs', for_each (rev (seq 0 k)) body zs = Ok zs' /\
                 has_shape3 Bn (shape1 (nth 0 xs [])) dim (last zs' [])) \/
    (exists s p b P_next i t,
       s < k /\ nth_error ps s = Some (p, b, P_next) /\
       i < Bn /\ t < shape1 (nth s xs []) /\
       shape1 (nth (S s) xs []) <= chunk_index_at (nth i b []) t /\
       for_each (rev (seq 0 k)) body zs =
       Raise (IndexError (shape1 (nth (S s) xs [])) 1
                         (shape1 (nth (S s) xs [])))).
Proof.
  intros Hsm HB Hlx Hsh Hst G m body.
  assert (Hstep : forall s zs, s < n_stages ->
            has_shape3 Bn (shape1 (nth (S s) xs [])) dim (last zs []) ->
            (exists z', body s zs = Ok (zs ++ [z']) /\
                        has_shape3 Bn (shape1 (nth s xs [])) dim z') \/
            (exists p b P_next i t,
               nth_error ps s = Some (p, b, P_next) /\
               i < Bn /\ t < shape1 (nth s xs []) /\
               shape1 (nth (S s) xs []) <= chunk_index_at (nth i b []) t /\
               body s zs =
               Raise (IndexError (shape1 (nth (S s) xs [])) 1
                                 (shape1 (nth (S s) xs []))))).
  { intros s zs Hs Hz.
    destruct (Hst s Hs) as [_ [p [b [P_next [Hps [Hp [Hb HP]]]]]]].
    destruct (Hsh s ltac:(lia)) as [HLs Hxs].
    destruct (Hsh (S s) ltac:(lia)) as [HLn _].
    set (Ls := shape1 (nth s xs [])) in *.
    set (Ln := shape1 (nth (S s) xs [])) in *.
    destruct (Hsm _ _ _ Hz HP HLn) as [bar_z [Hbz Hbzs]].
    assert (Hlk1 : lookup G "ema_smooth" = Ok (Fn_smooth sm))
      by reflexivity.
    assert (Hlk2 : lookup G "upsample" = Ok (Fn_upsample upsample))
      by reflexivity.
    assert (Hget : get 0 xs s = Ok (nth s xs [])).
    { apply get_Ok, nth_error_nth_default. lia. }
    unfold body. rewrite Hlk1. cbn [bind].
    rewrite (get_Ok 0 _ _ Hps). cbn [bind]. rewrite Hbz. cbn [bind].
    rewrite Hlk2. cbn [bind]. rewrite Hget. cbn [bind].
    fold Ls. rewrite (shape2_has_shape3 Hxs HB HLs).
    destruct (@upsample_cases T ST bar_z b p Bn Ls Ln dim Hbzs Hb)
      as [[Hrun Hall]|[Hrun [i [t [Hi [Ht Hover]]]]]].
    - left. rewrite Hrun.
      destruct (@confidence_at T ST b p) as [c [Hc _]].
      { eapply same_shape2_refl_shape; eauto. }
      rewrite Hc. cbn [bind].
      pose proof (@has_shape3_raw_expansion T ST bar_z b Bn Ls Ln dim Hbzs Hall) as Hzs.
      destruct (@Linear_forward_Ok T ST (encoder m) (nth s xs []) Bn Ls Hxs)
        as [He Hes].
      change (out_features (encoder m)) with dim in Hes.
      rewrite He. cbn [bind].
      destruct (@Linear_forward_Ok T ST (linear_skip m) _ Bn Ls Hes)
        as [Hk Hks].
      change (out_features (linear_skip m)) with dim in Hks.
      rewrite Hk. cbn [bind].
      destruct (tensor3_add_Ok Hzs Hks) as [Ha Has].
      rewrite Ha. cbn [bind].
      destruct (@Linear_forward_Ok T ST (decoder m) _ Bn Ls Has)
        as [Hd Hds].
      change (out_features (decoder m)) with dim in Hds.
      rewrite Hd. cbn [bind].
      eexists. split; [reflexivity|exact Hds].
    - right. rewrite Hrun. cbn [bind]. exists p, b, P_next, i, t.
      repeat (split; [assumption|]). reflexivity. }
  induction k as [|k IH]; intros Hk zs Hz.
  - left. exists zs. split; [reflexivity|exact Hz].
  - rewrite seq_S, rev_app_distr. cbn [rev app Nat.add for_each].
    destruct (Hstep k zs ltac:(lia) Hz)
      as [[z' [Hrun Hz']]|[p [b [P_next [i [t [Hps [Hi [Ht [Hov Hrun]]]]]]]]]].
    + rewrite Hrun. cbn [bind].
      destruct (IH ltac:(lia) (zs ++ [z'])) as [Hok|Hbad].
      * now rewrite last_last.
      * now left.
      * right.
        destruct Hbad as [s [p [b [P_next [i [t [Hs H]]]]]]].
        exists s, p, b, P_next, i, t. split; [lia|exact H].
    + right. exists k, p, b, P_next, i, t. split; [lia|].
      repeat (split; [assumption|]). now rewrite Hrun.
Qed.

(** The lengths the compression loop leaves never exceed the first. *)
Lemma stage_lengths_le_first (A : Type) (xs : list (list (list A)))
  (n_stages : nat) :
  (forall s, s < n_stages ->
     shape1 (nth (S s) xs []) <= shape1 (nth s xs [])) ->
  forall s, s <= n_stages -> shape1 (nth s xs []) <= shape1 (nth 0 xs []).
Proof.
  intros H s. induction s as [|s IH]; intros Hs; [lia|].
  specialize (H s ltac:(lia)). specialize (IH ltac:(lia)). lia.
Qed.

(** [forward] with [ema_smooth] bound to a smoother that keeps shapes:
    it returns a tensor of the input's shape, or at some stage the
    upsampler's running index reaches the compressed length. *)
Lemma forward_with_smoother_cases
  (sm : list (list (list T)) -> list (list T) ->
        result (list (list (list T))))
  (dim n_stages : nat) (w : HNet_params)
  (x0 : list (list (list T))) (Bn L : nat) :
  (forall z P L', has_shape3 Bn L' dim z -> has_shape2 Bn L' P -> 0 < L' ->
     exists bar_z, sm z P = Ok bar_z /\ has_shape3 Bn L' dim bar_z) ->
  has_shape3 Bn L dim x0 -> 0 < Bn -> 0 < L ->
  let G := ("ema_smooth", Fn_smooth sm) :: notebook_globals in
  let m := HNet_init dim n_stages w in
  (exists out, HNet_forward G m x0 = Ok out /\ has_shape3 Bn L dim out) \/
  (exists j t L_s (b_row : list T),
     1 <= j /\ t < L_s /\ L_s <= L /\ j <= chunk_index_at b_row t /\
     HNet_forward G m x0 = Raise (IndexError j 1 j)).
Proof.
  intros Hsm Hx HB HL G m.
  assert (HG : lookup G "downsample" = Ok (Fn_downsample downsample))
    by reflexivity.
  destruct (@compress_stages G dim n_stages w x0 Bn L HG Hx HB HL)
    as [xs [ps [Hc [Hlx [Hlp [H0 [Hlast [Hsh Hst]]]]]]]].
  unfold HNet_forward. fold m in Hc. rewrite Hc. cbn [bind].
  destruct (Hsh n_stages (Nat.le_refl _)) as [_ Hxn].
  rewrite Hlast.
  destruct (@Linear_forward_Ok T ST (main m) _ Bn _ Hxn) as [Hm Hms].
  change (out_features (main m)) with dim in Hms.
  rewrite Hm. cbn [bind].
  unfold decompress. rewrite py_range_0.
  change (num_stages m) with n_stages.
  assert (HL0 : shape1 (nth 0 xs []) = L)
    by (rewrite H0; exact (shape1_has_shape3 Hx HB)).
  destruct (@decompress_from sm dim n_stages w xs ps Bn Hsm HB Hlx Hsh Hst
              n_stages (Nat.le_refl _) [map (map (Linear_apply (main m)))
                                            (nth n_stages xs [])] Hms)
    as [[zs' [Hrun Hz]]|
        [s [p [b [P_next [i [t [Hs [Hps [Hi [Ht [Hov Hrun]]]]]]]]]]]].
  - left.
    match goal with |- context [for_each ?l ?f ?z] =>
      assert (Hrun' : for_each l f z = Ok zs') by exact Hrun end.
    rewrite Hrun'. cbn [bind]. eexists. split; [reflexivity|].
    rewrite HL0 in Hz. exact Hz.
  - right.
    exists (shape1 (nth (S s) xs [])), t, (shape1 (nth s xs [])),
           (nth i b []).
    destruct (Hsh (S s) ltac:(lia)) as [Hpos _].
    split; [lia|]. split; [exact Ht|]. split.
    { rewrite <- HL0.
      apply stage_lengths_le_first with (n_stages := n_stages); [|lia].
      intros s' Hs'. now apply Hst. }
    split; [exact Hov|].
    match goal with |- context [for_each ?l ?f ?z] =>
      assert (Hrun' : for_each l f z =
                      Raise (IndexError (shape1 (nth (S s) xs [])) 1
                                        (shape1 (nth (S s) xs []))))
        by exact Hrun end.
    now rewrite Hrun'.
Qed.

(** X24.  [forward] with the missing name [ema_smooth] bound to a
    smoother that keeps shapes (as [smoothing_module] does), on a
    non-empty batch of non-empty sequences of width [dim]: it returns a
    tensor of the shape of the input, or it raises the upsampler's
    IndexError; no other fault is possible. *)
Theorem forward_with_smoother_bound
  (sm : list (list (list T)) -> list (list T) ->
        result (list (list (list T))))
  (dim n_stages : nat) (w : HNet_params)
  (x0 : list (list (list T))) (Bn L : nat) :
  (forall z P L', has_shape3 Bn L' dim z -> has_shape2 Bn L' P -> 0 < L' ->
     exists bar_z, sm z P = Ok bar_z /\ has_shape3 Bn L' dim bar_z) ->
  has_shape3 Bn L dim x0 -> 0 < Bn -> 0 < L ->
  let G := ("ema_smooth", Fn_smooth sm) :: notebook_globals in
  let m := HNet_init dim n_stages w in
  (exists out, HNet_forward G m x0 = Ok out /\ has_shape3 Bn L dim out) \/
  (exists j, HNet_forward G m x0 = Raise (IndexError j 1 j)).
Proof.
  intros Hsm Hx HB HL G m.
  destruct (@forward_with_smoother_cases sm dim n_stages w x0 Bn L
              Hsm Hx HB HL) as [Hok|[j [_ [_ [_ [_ [_ [_ [_ Hrun]]]]]]]]].
  - left. exact Hok.
  - right. exists j. exact Hrun.
Qed.

(** X26.  On sequences of length 1, [forward] with [ema_smooth] bound to
    [smoothing_module] returns a tensor of the shape of the input, for
    every number of stages and every setting of the weights: each stage
    keeps the single position and the upsampler reads chunk 0 only. *)
Theorem forward_length_one_returns (dim n_stages : nat) (w : HNet_params)
  (x0 : list (list (list T))) (Bn : nat) :
  has_shape3 Bn 1 dim x0 -> 0 < Bn ->
  exists out,
    HNet_forward (("ema_smooth", Fn_smooth smoothing_module)
                    :: notebook_globals)
                 (HNet_init dim n_stages w) x0 = Ok out /\
    has_shape3 Bn 1 dim out.
Proof.
  intros Hx HB.
  destruct (@forward_with_smoother_cases smoothing_module dim n_stages w
              x0 Bn 1) as [Hok|[j [t [L_s [b_row [Hj [Ht [HLs [Hov _]]]]]]]]];
    auto.
  - intros z P L' Hz HP HL'.
    destruct (smoothing_module_rows Hz HP HL') as [bar_z [Hrun [Hs _]]].
    exists bar_z. now split.
  - exfalso. assert (t = 0) by lia. subst t.
    unfold chunk_index_at in Hov. simpl in Hov. lia.
Qed.

(** X25.  Whenever the router returns on a well-shaped tensor with at
    least one position, its flags are 0 or 1 and both results have the
    (batch, length) shape of the input. *)
Theorem router_flags_binary (dim : nat) (wq wk : nat -> nat -> T)
  (x_hat : list (list (list T))) (Bn L : nat)
  (p b : list (list T)) :
  has_shape3 Bn L dim x_hat -> 0 < L ->
  SimilarityRouter_forward (SimilarityRouter_init dim wq wk) x_hat
  = Ok (p, b) ->
  has_shape2 Bn L p /\ has_shape2 Bn L b /\ Forall binary_row b.
Proof.
  intros Hx HL Hrun.
  destruct (router_returns wq wk Hx HL) as [p' [b' [Hr [Hp [Hb _]]]]].
  pose proof (router_closed_form wq wk Hx HL) as Hcf. cbv zeta in Hcf.
  rewrite Hcf in Hr. rewrite Hcf in Hrun.
  inversion Hr; subst p' b'. inversion Hrun; subst p b.
  split; [exact Hp|]. split; [exact Hb|].
  apply Forall_forall. intros row Hrow.
  apply in_map_iff in Hrow as [p_row [<- _]]. apply binary_row_indicator.
Qed.

End ForwardMore.

(** Witness of X21: one element of two positions, one stage. *)
Lemma compress_lengths_never_grow_witness :
  exists xs ps,
    compress notebook_globals (HNet_init 1 1 (@identity_params float _))
             [[ [1%float]; [1%float] ]] = Ok (xs, ps) /\
    length xs = 2.
Proof.
  destruct (@compress_lengths_never_grow float _ _ 1 1 identity_params
              [[ [1%float]; [1%float] ]] 1 2) as [xs [ps [H [Hl _]]]].
  - split; [reflexivity|]. repeat constructor.
  - lia.
  - lia.
  - exists xs, ps. split; [exact H|exact Hl].
Defined.

(** Witness of X22: a vector of width 1 given to a network of width 2. *)
Lemma forward_wrong_width_witness :
  HNet_forward notebook_globals (HNet_init 2 1 (@identity_params float _))
               [[ [1%float] ]] = Raise RuntimeError.
Proof.
  apply (@forward_wrong_width float _ notebook_globals 2 1 identity_params
           [[ [1%float] ]]).
  apply Exists_cons_hd, Exists_cons_hd. simpl. lia.
Defined.


(** Witness of X24: [ema_smooth] bound to [smoothing_module], one
    element of two positions, one stage. *)
Lemma forward_with_smoother_bound_witness :
  (exists out,
     HNet_forward (("ema_smooth", Fn_smooth smoothing_module)
                     :: notebook_globals)
                  (HNet_init 1 1 (@identity_params float _))
                  [[ [1%float]; [1%float] ]] = Ok out /\
     has_shape3 1 2 1 out) \/
  (exists j,
     HNet_forward (("ema_smooth", Fn_smooth smoothing_module)
                     :: notebook_globals)
                  (HNet_init 1 1 (@identity_params float _))
                  [[ [1%float]; [1%float] ]] = Raise (IndexError j 1 j)).
Proof.
  apply (@forward_with_smoother_bound float _ _ smoothing_module 1 1
           identity_params [[ [1%float]; [1%float] ]] 1 2).
  - intros z P L' Hz HP HL'.
    destruct (smoothing_module_rows Hz HP HL') as [bar_z [Hrun [Hs _]]].
    exists bar_z. split; [exact Hrun|exact Hs].
  - split; [reflexivity|]. repeat constructor.
  - lia.
  - lia.
Defined.

(** Witness of X26: one element of one position, two stages. *)
Lemma forward_length_one_returns_witness :
  exists out,
    HNet_forward (("ema_smooth", Fn_smooth smoothing_module)
                    :: notebook_globals)
                 (HNet_init 1 2 (@identity_params float _))
                 [[ [1%float] ]] = Ok out /\
    has_shape3 1 1 1 out.
Proof.
  apply (@forward_length_one_returns float _ _ 1 2 identity_params
           [[ [1%float] ]] 1).
  - split; [reflexivity|]. repeat constructor.
  - lia.
Defined.

(** Witness of X25: two zero vectors, whose similarity is 0. *)
Lemma router_flags_binary_witness :
  has_shape2 1 2 [[1; 0.5]%float] /\ has_shape2 1 2 [[1; 1]%float] /\
  Forall binary_row [[1; 1]%float].
Proof.
  apply (@router_flags_binary float _ _ 1 (fun _ _ => 1%float)
           (fun _ _ => 1%float) [[ [0%float]; [0%float] ]] 1 2
           [[1; 0.5]%float] [[1; 1]%float]).
  - split; [reflexivity|]. repeat constructor.
  - lia.
  - reflexivity.
Defined.
